(** * x402 payment engine and load simulator: a shallow embedding

    The development follows four TypeScript classes of the repository:

    - [EvolveFacilitatorClient] (server, x402/evolve-facilitator.ts): the
      replay guard [usedTxHashes] with its lazy one-hour eviction, [verify]
      and [settle];
    - [EventEmitter] (server, events.ts): the bounded event log and the
      backlog sent to a new connection;
    - [MetricsCollector] (simulator, metrics.ts): per-agent counters, the
      latency buffer, the nearest-rank percentile and the sliding window;
    - [Agent.submitPayment] (simulator, agent.ts): the locally managed
      nonce, run by several workers that interleave at every [await].

    Around them it follows the code they meet: the calldata and the
    account ids of the simulator (evolve-utils.ts), the queries of the
    emitter and its emit helpers, the event hooks of the resource server
    (x402/hooks.ts), the life of a collector, the configuration of the
    simulator (config.ts, index.ts) and the dashboard that consumes the
    event stream (useEventStream.ts, useMetrics.ts).

    Conventions.  A JavaScript [number] that holds a count, an index or a
    millisecond timestamp is a [Z]; the percentile index and the published
    averages and success rate, where the code rounds a quotient or a
    product of doubles, are computed in binary64.  [Date.now()] is an
    argument [now] of the function that reads it.  A [Map<string, V>] is a
    [gmap string V], which keeps no insertion order.  A string is a
    sequence of code units below 256.  An awaited call to the
    ledger is answered by an oracle that either returns or throws. *)

From Stdlib Require Import ZArith QArith Qround Ascii String Floats Uint63.
From stdpp Require Import base numbers option list strings pretty gmap fin_maps sorting.

Local Open Scope Z_scope.

(** ** JavaScript built-ins used by the modelled code *)
Module JS.

(** Outcome of an awaited call: the promise resolves or rejects. *)
Inductive rpc (A : Type) : Type :=
| Resolved (a : A)
| Rejected.
Arguments Resolved {A} a.
Arguments Rejected {A}.

(** [arr.slice(-k)] for [k >= 0]: the last [k] elements, the whole array
    when it is shorter. *)
Definition slice_last {A : Type} (k : nat) (arr : list A) : list A :=
  drop (length arr - k)%nat arr.

(** [s.slice(i)] on a string. *)
Fixpoint str_slice_from (i : nat) (s : string) : string :=
  match i, s with
  | O, _ => s
  | S i', String _ s' => str_slice_from i' s'
  | S _, EmptyString => EmptyString
  end.

(** [s.slice(i, j)] on a string, for [i <= j]. *)
Definition str_slice (i j : nat) (s : string) : string :=
  String.substring i (j - i)%nat s.

Definition code (c : ascii) : Z := Z.of_nat (nat_of_ascii c).

(** StrWhiteSpaceChar of ECMA-262, restricted to code units below 256:
    TAB, LF, VT, FF, CR, SP and NBSP. *)
Definition is_js_space (c : ascii) : bool :=
  let n := code c in
  ((9 <=? n) && (n <=? 13)) || (n =? 32) || (n =? 160).

Definition digit_value (c : ascii) : option Z :=
  let n := code c in
  if (48 <=? n) && (n <=? 57) then Some (n - 48)
  else if (97 <=? n) && (n <=? 122) then Some (n - 97 + 10)
  else if (65 <=? n) && (n <=? 90) then Some (n - 65 + 10)
  else None.

(** Value of [c] as a digit of the given radix. *)
Definition digit_in (radix : Z) (c : ascii) : option Z :=
  match digit_value c with
  | Some d => if d <? radix then Some d else None
  | None => None
  end.

Fixpoint skip_space (s : string) : string :=
  match s with
  | String c s' => if is_js_space c then skip_space s' else s
  | EmptyString => EmptyString
  end.

(** Longest prefix of [s] made of digits of [radix], read most significant
    digit first on top of [acc]; the second component counts the digits
    read and the third is what follows them. *)
Fixpoint read_digits (radix : Z) (s : string) (acc : Z) (n : nat)
  : Z * nat * string :=
  match s with
  | String c s' =>
      match digit_in radix c with
      | Some d => read_digits radix s' (acc * radix + d) (S n)
      | None => (acc, n, s)
      end
  | EmptyString => (acc, n, EmptyString)
  end.

Definition strip_0x (s : string) : string :=
  match s with
  | String "0" (String "x" s') => s'
  | String "0" (String "X" s') => s'
  | _ => s
  end.

(** [Number.parseInt(s, 16)]: leading white space is skipped, one sign is
    accepted, a [0x] prefix is dropped, and the longest run of hexadecimal
    digits is read; [None] stands for [NaN].  The value is exact, which
    is what a double holds for the two-character arguments of [verify]. *)
Definition parseInt16 (s : string) : option Z :=
  let s1 := skip_space s in
  let '(sign, s2) :=
    match s1 with
    | String "-" r => (-1, r)
    | String "+" r => (1, r)
    | _ => (1, s1)
    end in
  let '(v, n, _) := read_digits 16 (strip_0x s2) 0 O in
  match n with
  | O => None
  | S _ => Some (sign * v)
  end.

(** Storing a number in a [Uint8Array] slot: [NaN] becomes 0 and an
    integer is reduced modulo 256. *)
Definition toUint8 (v : option Z) : Z :=
  match v with
  | Some n => n mod 256
  | None => 0
  end.

Fixpoint str_rev_acc (s acc : string) : string :=
  match s with
  | String c s' => str_rev_acc s' (String c acc)
  | EmptyString => acc
  end.

(** [s.trim()]. *)
Definition trim (s : string) : string :=
  str_rev_acc (skip_space (str_rev_acc (skip_space s) EmptyString)) EmptyString.

(** All of [s] as digits of [radix]; [None] when [s] is empty or holds
    another character. *)
Definition all_digits (radix : Z) (s : string) : option Z :=
  match read_digits radix s 0 O with
  | (v, S _, EmptyString) => Some v
  | _ => None
  end.

(** [BigInt(s)] on a string (StringToBigInt): white space around the
    literal is ignored, the empty literal is [0n], a decimal literal may
    carry one sign, a literal with prefix [0x], [0o] or [0b] may not;
    [None] stands for the [SyntaxError] thrown on anything else. *)
Definition BigInt_of_string (s : string) : option Z :=
  match trim s with
  | EmptyString => Some 0
  | String "0" (String "x" r) | String "0" (String "X" r) => all_digits 16 r
  | String "0" (String "o" r) | String "0" (String "O" r) => all_digits 8 r
  | String "0" (String "b" r) | String "0" (String "B" r) => all_digits 2 r
  | String "-" r => Z.opp <$> all_digits 10 r
  | String "+" r => all_digits 10 r
  | t => all_digits 10 t
  end.

(** [Math.ceil(a / b)] for integers [a] and [b > 0]. *)
Definition ceil_div (a b : Z) : Z := - ((- a) / b).

(** An integer below 2^53 as the double that holds it. *)
Definition number_of_Z (z : Z) : float := PrimFloat.of_uint63 (Uint63.of_Z z).

(** What [Math.ceil] returns: [NaN], an infinity, or an integer. *)
Inductive ceiling :=
| CeilNaN
| CeilInf (negative : bool)
| CeilInt (z : Z).

(** [Math.ceil(x)] on a double; a finite double is [m * 2^e], signed. *)
Definition Math_ceil (x : float) : ceiling :=
  match Prim2SF x with
  | S754_nan => CeilNaN
  | S754_infinity s => CeilInf s
  | S754_zero _ => CeilInt 0
  | S754_finite s m e =>
      let v := if s then Z.neg m else Z.pos m in
      CeilInt (if 0 <=? e then v * 2 ^ e else ceil_div v (2 ^ (- e)))
  end.

(** An integer of either sign, below 2^53 in absolute value, as the
    double that holds it. *)
Definition number_of_int (z : Z) : float :=
  if z <? 0 then PrimFloat.opp (number_of_Z (- z)) else number_of_Z z.

(** [Math.round(x)] on a double: [NaN], the zeros, the infinities and
    the doubles that are integers are returned as they are; any other
    double [m * 2^e] goes to the nearest integer, a half upwards, and to a
    zero of its own sign when that integer is 0. *)
Definition Math_round_number (x : float) : float :=
  match Prim2SF x with
  | S754_finite s m e =>
      if 0 <=? e then x
      else
        let v := if s then Z.neg m else Z.pos m in
        let r := (2 * v + 2 ^ (- e)) / 2 ^ (1 - e) in
        if r =? 0 then (if s then neg_zero else zero) else number_of_int r
  | _ => x
  end.

End JS.

(** ** EvolveFacilitatorClient (server/src/x402/evolve-facilitator.ts) *)
Module Facilitator.
Import JS.

Definition TX_HASH_TTL_MS : Z := 3600000.

Inductive ReceiptStatus := StatusSuccess | StatusReverted.

(** What [verify] and [settle] read of a receipt. *)
Record Receipt := { status : ReceiptStatus; from : string }.

(** What [verify] reads of a transaction. *)
Record Transaction := { input : string }.

(** The ledger as the facilitator sees it.  [getTransactionReceipt] and
    [getTransaction] of evolve.ts are awaited remote calls: each resolves
    to a value, to [null] ([None]), or rejects. *)
Record EvolveClient := {
  getTransactionReceipt : string -> rpc (option Receipt);
  getTransaction : string -> rpc (option Transaction)
}.

(** [paymentPayload.payload.txHash]; the empty string is the falsy hash. *)
Record PaymentPayload := { txHash : string }.

(** The one field of the requirements that the facilitator reads. *)
Record PaymentRequirements := { amount : string }.

Record VerifyResponse := {
  isValid : bool;
  invalidReason : option string;
  payer : option string
}.

Record SettleResponse := {
  success : bool;
  transaction : string;
  settle_network : string;
  settle_payer : string
}.

(** The instance: the replay guard and the configured network. *)
Record State := {
  usedTxHashes : gmap string Z;
  network : string
}.

Definition with_used (st : State) (m : gmap string Z) : State :=
  {| usedTxHashes := m; network := network st |}.

Definition invalid (reason : string) : VerifyResponse :=
  {| isValid := false; invalidReason := Some reason; payer := None |}.

Definition valid (p : string) : VerifyResponse :=
  {| isValid := true; invalidReason := None; payer := Some p |}.

Definition stale (now ts : Z) : bool := TX_HASH_TTL_MS <? now - ts.

(** One iteration of the [for ... of] loop of [evictStale]. *)
Definition evict_entry (now : Z) (entry : string * Z)
    (m : gmap string Z) : gmap string Z :=
  if stale now entry.2 then delete entry.1 m else m.

(** [evictStale()]: every entry of the map is visited once and deleted
    when [now - ts > TX_HASH_TTL_MS]. *)
Definition evictStale (now : Z) (m : gmap string Z) : gmap string Z :=
  foldr (evict_entry now) m (map_to_list m).

(** Bytes 36..52 of the calldata: sixteen two-digit slices of
    [amountHex], each through [parseInt(_, 16)] into a [Uint8Array]. *)
Definition amountBytes (amountHex : string) : list Z :=
  map (fun i => toUint8 (parseInt16 (str_slice (i * 2) (i * 2 + 2) amountHex)))
      (seq 0 16).

(** The loop [for (i = 15; i >= 0; i--) t = (t << 8n) | BigInt(b[i])]. *)
Definition le_u128 (bytes : list Z) : Z :=
  foldr (fun b acc => Z.lor (Z.shiftl acc 8) b) 0 bytes.

Definition insufficient_msg (got need : Z) : string :=
  "Insufficient payment: got " +:+ pretty got +:+ ", need " +:+ pretty need.

(** The [try] block of [verify]: [None] is an exception, which the
    [catch] turns into "Verification failed". *)
Definition verify_ledger (client : EvolveClient) (h : string)
    (req : PaymentRequirements) : option VerifyResponse :=
  match getTransactionReceipt client h with
  | Rejected => None
  | Resolved None => Some (invalid "Transaction not found")
  | Resolved (Some receipt) =>
      match status receipt with
      | StatusReverted => Some (invalid "Transaction failed")
      | StatusSuccess =>
          match getTransaction client h with
          | Rejected => None
          | Resolved None => Some (invalid "Transaction data not found")
          | Resolved (Some tx) =>
              if (String.length (input tx) <? 106)%nat
              then Some (invalid "Transaction calldata too short for token transfer")
              else
                let amountHex := str_slice_from (2 + 72) (input tx) in
                let transferAmount := le_u128 (amountBytes amountHex) in
                match BigInt_of_string (amount req) with
                | None => None
                | Some requiredAmount =>
                    if transferAmount <? requiredAmount
                    then Some (invalid (insufficient_msg transferAmount requiredAmount))
                    else Some (valid (from receipt))
                end
          end
      end
  end.

(** [verify(paymentPayload, paymentRequirements)] called at time [now]. *)
Definition verify (client : EvolveClient) (st : State)
    (p : PaymentPayload) (req : PaymentRequirements) (now : Z)
  : State * VerifyResponse :=
  let st1 := with_used st (evictStale now (usedTxHashes st)) in
  if String.eqb (txHash p) ""
  then (st1, invalid "Missing transaction hash")
  else match usedTxHashes st1 !! txHash p with
       | Some _ => (st1, invalid "Transaction already used")
       | None =>
           match verify_ledger client (txHash p) req with
           | Some r => (st1, r)
           | None => (st1, invalid "Verification failed")
           end
       end.

(** [settle(paymentPayload, _)] called at time [now]. *)
Definition settle (client : EvolveClient) (st : State)
    (p : PaymentPayload) (req : PaymentRequirements) (now : Z)
  : State * SettleResponse :=
  let h := txHash p in
  let st1 := with_used st (<[h := now]> (usedTxHashes st)) in
  let payer :=
    match getTransactionReceipt client h with
    | Resolved (Some receipt) => from receipt
    | Resolved None => h
    | Rejected => h
    end in
  (st1, {| success := true; transaction := h;
           settle_network := network st; settle_payer := payer |}).

(** The guard holds [h] with a stamp not older than [T]. *)
Definition held_since (T : Z) (h : string) (st : State) : Prop :=
  exists ts, usedTxHashes st !! h = Some ts /\ T <= ts.

(** A call of the facilitator, with the ledger answers and the clock
    reading it meets. *)
Inductive call :=
| CallVerify (client : EvolveClient) (p : PaymentPayload)
    (req : PaymentRequirements) (now : Z)
| CallSettle (client : EvolveClient) (p : PaymentPayload)
    (req : PaymentRequirements) (now : Z).

Definition call_time (c : call) : Z :=
  match c with
  | CallVerify _ _ _ now => now
  | CallSettle _ _ _ now => now
  end.

Definition exec (st : State) (c : call) : State :=
  match c with
  | CallVerify client p req now => (verify client st p req now).1
  | CallSettle client p req now => (settle client st p req now).1
  end.

(** The facilitator after a sequence of calls, oldest first. *)
Definition exec_all (st : State) (cs : list call) : State := foldl exec st cs.

(** *** Sample data

    A ledger on which every transaction exists, succeeded, was sent by
    [0xpayer] and transfers 100 units (bytes 36..52 of the calldata,
    little endian). *)
Definition paying_ledger : EvolveClient :=
  {| getTransactionReceipt := fun _ =>
       Resolved (Some {| status := StatusSuccess; from := "0xpayer" |});
     getTransaction := fun _ =>
       Resolved (Some {| input :=
         "0xa9059cbb"
         +:+ "0100000000000000000000000000000000000000000000000000000000000000"
         +:+ "64000000000000000000000000000000" |}) |}.

Definition fresh : State := {| usedTxHashes := ∅; network := "evolve:1337" |}.
Definition proof_c : PaymentPayload := {| txHash := "0xcc" |}.
Definition proof_d : PaymentPayload := {| txHash := "0xdd" |}.
Definition price_100 : PaymentRequirements := {| amount := "100" |}.

End Facilitator.

(** ** EventEmitter (server/src/events.ts) *)
Module Events.
Import JS.

Inductive PaymentEventType :=
| payment_submitted
| payment_confirmed
| payment_failed
| request_served
| agent_connected
| agent_disconnected
| error_event.

Record PaymentEvent := {
  type : PaymentEventType;
  timestamp : Z;
  agentId : string;
  txHash : option string;
  amount : option string;
  endpoint : option string;
  latencyMs : option Z;
  error : option string;
  from : option string;
  to : option string
}.

(** A connection is known by its identity. *)
Definition WebSocket := nat.

(** What [JSON.stringify] is applied to before [ws.send]. *)
Inductive Message :=
| History (events : list PaymentEvent)
| Single (event : PaymentEvent).

Definition maxLogSize : Z := 1000.

(** [connections] is a [Set]: insertion order, no element twice. *)
Record State := {
  connections : list WebSocket;
  eventLog : list PaymentEvent
}.

Definition init : State := {| connections := []; eventLog := [] |}.

Definition set_add (ws : WebSocket) (s : list WebSocket) : list WebSocket :=
  if bool_decide (ws ∈ s) then s else s ++ [ws].

Definition set_delete (ws : WebSocket) (s : list WebSocket) : list WebSocket :=
  filter (fun x => x ≠ ws) s.

(** [addConnection(ws)]: the second component is the message handed to
    [ws.send], if any. *)
Definition addConnection (st : State) (ws : WebSocket)
  : State * option Message :=
  let st1 := {| connections := set_add ws (connections st);
                eventLog := eventLog st |} in
  if (0 <? length (eventLog st))%nat
  then (st1, Some (History (slice_last 100 (eventLog st))))
  else (st1, None).

Definition removeConnection (st : State) (ws : WebSocket) : State :=
  {| connections := set_delete ws (connections st); eventLog := eventLog st |}.

(** The first half of [emit]: push, then compact when the log has grown
    past [maxLogSize]. *)
Definition append_log (log : list PaymentEvent) (event : PaymentEvent)
  : list PaymentEvent :=
  let log1 := log ++ [event] in
  if maxLogSize <? Z.of_nat (length log1)
  then slice_last (Z.to_nat (maxLogSize / 2)) log1
  else log1.

(** [emit(event)]: [throws ws] tells whether [ws.send] throws now, in
    which case the connection is dropped.  The second component lists the
    sends that went through, in iteration order. *)
Definition emit (throws : WebSocket -> bool) (st : State) (event : PaymentEvent)
  : State * list (WebSocket * Message) :=
  let log := append_log (eventLog st) event in
  let conns := connections st in
  ({| connections := filter (fun ws => throws ws = false) conns;
      eventLog := log |},
   map (fun ws => (ws, Single event)) (filter (fun ws => throws ws = false) conns)).


(** The states of the singleton [eventEmitter]: it starts empty and is
    only changed through its methods. *)
Inductive reachable : State -> Prop :=
| reach_init : reachable init
| reach_add st ws : reachable st -> reachable (addConnection st ws).1
| reach_remove st ws : reachable st -> reachable (removeConnection st ws)
| reach_emit st throws event : reachable st -> reachable (emit throws st event).1.

(** Events emitted one after the other while every send goes through. *)
Definition emit_all (st : State) (events : list PaymentEvent) : State :=
  foldl (fun s e => (emit (fun _ => false) s e).1) st events.

(** *** Sample data *)
Definition served_at (t : Z) : PaymentEvent :=
  {| type := request_served; timestamp := t; agentId := "agent-1";
     txHash := None; amount := None; endpoint := Some "/api/transform/echo"%string;
     latencyMs := Some 12; error := None; from := None; to := None |}.

(** [n] events stamped 0, 1, ... *)
Definition served_run (n : nat) : list PaymentEvent :=
  map (fun i => served_at (Z.of_nat i)) (seq 0 n).

End Events.

(** ** MetricsCollector (simulator/src/metrics.ts) *)
Module Metrics.
Import JS.

Definition TPS_WINDOW_MS : Z := 1000.

Record RequestResult := {
  success : bool;
  agentId : string;
  endpoint : string;
  txHash : option string;
  latencyMs : Z;
  paymentLatencyMs : option Z;
  error : option string;
  timestamp : Z
}.

Record AgentMetrics := {
  am_agentId : string;
  address : string;
  totalRequests : Z;
  successfulRequests : Z;
  failedRequests : Z;
  totalLatencyMs : Z;
  totalPaymentLatencyMs : Z;
  balance : Z;
  lastRequestTime : Z
}.

Record State := {
  agentMetrics : gmap string AgentMetrics;
  latencies : list Z;
  recentRequests : list Z;
  startTime : Z
}.

Definition init : State :=
  {| agentMetrics := ∅; latencies := []; recentRequests := []; startTime := 0 |}.

(** [start()], with [Date.now()] as [now]. *)
Definition start (st : State) (now : Z) : State :=
  {| agentMetrics := agentMetrics st; latencies := []; recentRequests := [];
     startTime := now |}.

Definition registerAgent (st : State) (id addr : string) : State :=
  {| agentMetrics :=
       <[id := {| am_agentId := id; address := addr; totalRequests := 0;
                  successfulRequests := 0; failedRequests := 0;
                  totalLatencyMs := 0; totalPaymentLatencyMs := 0;
                  balance := 0; lastRequestTime := 0 |}]> (agentMetrics st);
     latencies := latencies st;
     recentRequests := recentRequests st;
     startTime := startTime st |}.

(** The updates [recordRequest] makes to the agent's entry. *)
Definition bump (m : AgentMetrics) (result : RequestResult) : AgentMetrics :=
  {| am_agentId := am_agentId m;
     address := address m;
     totalRequests := totalRequests m + 1;
     successfulRequests :=
       if success result then successfulRequests m + 1 else successfulRequests m;
     failedRequests :=
       if success result then failedRequests m else failedRequests m + 1;
     totalLatencyMs := totalLatencyMs m + latencyMs result;
     totalPaymentLatencyMs :=
       match paymentLatencyMs result with
       | Some v => if v =? 0 then totalPaymentLatencyMs m
                   else totalPaymentLatencyMs m + v
       | None => totalPaymentLatencyMs m
       end;
     balance := balance m;
     lastRequestTime := timestamp result |}.

(** [recordRequest(result)]. *)
Definition recordRequest (st : State) (result : RequestResult) : State :=
  match agentMetrics st !! agentId result with
  | None => st
  | Some metrics =>
      let lat := latencies st ++ [latencyMs result] in
      {| agentMetrics := <[agentId result := bump metrics result]> (agentMetrics st);
         latencies :=
           if 10000 <? Z.of_nat (length lat) then slice_last (Z.to_nat 5000) lat else lat;
         recentRequests := recentRequests st ++ [timestamp result];
         startTime := startTime st |}
  end.

Definition updateAgentBalance (st : State) (id : string) (b : Z) : State :=
  match agentMetrics st !! id with
  | None => st
  | Some m =>
      {| agentMetrics :=
           <[id := {| am_agentId := am_agentId m; address := address m;
                      totalRequests := totalRequests m;
                      successfulRequests := successfulRequests m;
                      failedRequests := failedRequests m;
                      totalLatencyMs := totalLatencyMs m;
                      totalPaymentLatencyMs := totalPaymentLatencyMs m;
                      balance := b;
                      lastRequestTime := lastRequestTime m |}]> (agentMetrics st);
         latencies := latencies st;
         recentRequests := recentRequests st;
         startTime := startTime st |}
  end.

(** [percentile(sorted, p)].  [(p / 100) * sorted.length] is a product of
    doubles.  [None] is the [undefined] that indexing past the end of the
    array, or at [NaN], yields; [Math.max(0, -Infinity)] is 0.  (Above 2^53
    the subtraction of 1 rounds, at indices no array has.) *)
Definition percentile (sorted : list Z) (p : float) : option Z :=
  if (length sorted =? 0)%nat then Some 0
  else
    match Math_ceil (PrimFloat.mul (PrimFloat.div p 100)
                       (number_of_Z (Z.of_nat (length sorted)))) with
    | CeilInt c =>
        let idx := c - 1 in
        sorted !! Z.to_nat (Z.max 0 idx)
    | CeilInf true => sorted !! 0%nat
    | CeilInf false => None
    | CeilNaN => None
    end.

(** [Math.round] on a rational: the nearest integer, halves upwards. *)
Definition Math_round (q : Q) : Z := Qfloor (q + (1 # 2))%Q.

Record PoolMetrics := {
  pm_totalRequests : Z;
  pm_successfulRequests : Z;
  pm_failedRequests : Z;
  avgLatencyMs : float;
  p50LatencyMs : option Z;
  p95LatencyMs : option Z;
  p99LatencyMs : option Z;
  currentTps : Q;
  agents : list AgentMetrics;
  pm_startTime : Z;
  elapsedMs : Z
}.

Definition sum (l : list Z) : Z := foldl Z.add 0 l.

(** [getPoolMetrics()], with [Date.now()] as [now].  The collector is
    updated too: the window filter is stored back in [recentRequests].
    The rate is an exact rational: it is computed from integers and powers
    of ten that doubles hold and divide exactly.  The average is computed
    in binary64 as the code does, from the sum of the latencies, which
    doubles add exactly below 2^53.  [agents] lists the entries of the map
    by key, where [Array.from(map.values())] lists them in the order in
    which the agents were registered: the order of that list is not the
    code's, the sums over it do not depend on it. *)
Definition getPoolMetrics (st : State) (now : Z) : State * PoolMetrics :=
  let agents := (map_to_list (agentMetrics st)).*2 in
  let sortedLatencies := merge_sort Z.le (latencies st) in
  let avg : float :=
    if (0 <? length sortedLatencies)%nat
    then PrimFloat.div (number_of_int (sum sortedLatencies))
                       (number_of_Z (Z.of_nat (length sortedLatencies)))
    else 0%float in
  let windowStart := now - TPS_WINDOW_MS in
  let recent := filter (fun t => windowStart < t) (recentRequests st) in
  let tps : Q :=
    (inject_Z (Z.of_nat (length recent)) / (inject_Z TPS_WINDOW_MS / 1000))%Q in
  ({| agentMetrics := agentMetrics st; latencies := latencies st;
      recentRequests := recent; startTime := startTime st |},
   {| pm_totalRequests := sum (totalRequests <$> agents);
      pm_successfulRequests := sum (successfulRequests <$> agents);
      pm_failedRequests := sum (failedRequests <$> agents);
      avgLatencyMs := PrimFloat.div (Math_round_number (PrimFloat.mul avg 100)) 100;
      p50LatencyMs := percentile sortedLatencies 50%float;
      p95LatencyMs := percentile sortedLatencies 95%float;
      p99LatencyMs := percentile sortedLatencies 99%float;
      currentTps := (inject_Z (Math_round (tps * 10)) / 10)%Q;
      agents := agents;
      pm_startTime := startTime st;
      elapsedMs := now - startTime st |}).

(** What the pool does with its collector while it runs: it records a
    result, or it reads the metrics at some time (the periodic report and
    [formatSummary]), which prunes the window buffer. *)
Inductive op :=
| OpRecord (result : RequestResult)
| OpPoll (now : Z).

Definition apply_op (st : State) (o : op) : State :=
  match o with
  | OpRecord result => recordRequest st result
  | OpPoll now => (getPoolMetrics st now).1
  end.

(** The collector after a sequence of operations, oldest first. *)
Definition run_ops (st : State) (ops : list op) : State := foldl apply_op st ops.

(** The results handed to [recordRequest], in order. *)
Definition recorded (ops : list op) : list RequestResult :=
  omap (fun o => match o with OpRecord result => Some result | OpPoll _ => None end) ops.

(** No metrics were read at a time later than [now]. *)
Definition polls_until (now : Z) (ops : list op) : Prop :=
  Forall (fun o => match o with OpPoll t => t <= now | OpRecord _ => True end) ops.

(** The agent of the result was registered in [st]. *)
Definition known (st : State) (result : RequestResult) : Prop :=
  is_Some (agentMetrics st !! agentId result).

(** *** Sample data *)
Definition result_at (ok : bool) (id : string) (t : Z) : RequestResult :=
  {| success := ok; agentId := id; endpoint := "POST /api/transform/echo";
     txHash := None; latencyMs := 40; paymentLatencyMs := Some 25;
     error := if ok then None else Some "Unexpected status: 500"%string;
     timestamp := t |}.

(** A collector with the one agent [agent-1], started at time 0. *)
Definition one_agent : State := start (registerAgent init "agent-1" "0x01") 0.

Definition sample_latencies : list Z := [10; 20; 30; 40; 50; 100; 200].

(** The samples 1, 2, ..., 100. *)
Definition hundred_samples : list Z := seqZ 1 100.

(** The largest number of samples the collector keeps. *)
Definition MAX_SAMPLES : Z := 10000.

(** For [n] samples the index that [percentile] computes in doubles for the
    [p]-th percentile is the exact [ceil(p * n / 100)]. *)
Definition rank_exact (p n : Z) : bool :=
  match Math_ceil (PrimFloat.mul (PrimFloat.div (number_of_Z p) 100) (number_of_Z n)) with
  | CeilInt c => c =? ceil_div (p * n) 100
  | _ => false
  end.

(** [f] holds at [n], [n + 1], ..., [n + k - 1]. *)
Fixpoint all_from (f : Z -> bool) (k : nat) (n : Z) : bool :=
  match k with
  | O => true
  | S k' => f n && all_from f k' (n + 1)
  end.

End Metrics.

(** ** Agent.submitPayment (simulator/src/agent.ts) *)
Module Agent.
Import JS.

Definition MAX_INFLIGHT : nat := 5.

Definition to_lower (c : ascii) : ascii :=
  let n := code c in
  if (65 <=? n) && (n <=? 90) then ascii_of_nat (Z.to_nat (n + 32)) else c.

(** [pat] is a prefix of [s], letter case ignored. *)
Fixpoint prefix_ci (pat s : string) : bool :=
  match pat, s with
  | EmptyString, _ => true
  | String a pat', String b s' =>
      if Ascii.eqb (to_lower a) (to_lower b) then prefix_ci pat' s' else false
  | String _ _, EmptyString => false
  end.

(** [/pat/i.test(s)] for a pattern without metacharacters. *)
Fixpoint test_ci (pat s : string) : bool :=
  prefix_ci pat s ||
  match s with
  | String _ s' => test_ci pat s'
  | EmptyString => false
  end.

Definition is_prefix (pat s : string) : bool := String.prefix pat s.

Definition dquote : ascii := ascii_of_nat 34.

(** The text [{dquote}params{dquote}:[{dquote}] that opens the pattern
    of the raw transaction. *)
Definition params_open : string :=
  String dquote ("params" +:+ String dquote (":[" +:+ String dquote EmptyString)).

(** Longest prefix of hexadecimal digits and what follows it. *)
Fixpoint hex_run (s : string) : string * string :=
  match s with
  | String c s' =>
      match digit_in 16 c with
      | Some _ => let '(run, rest) := hex_run s' in (String c run, rest)
      | None => (EmptyString, s)
      end
  | EmptyString => (EmptyString, EmptyString)
  end.

(** The pattern of the raw transaction anchored at the head of [s]:
    the opening text, [0x], one hexadecimal digit or more, a double quote
    and a closing bracket.  The result is capture group 1. *)
Definition raw_tx_here (s : string) : option string :=
  if is_prefix params_open s then
    match str_slice_from (String.length params_open) s with
    | String "0" (String "x" r) =>
        match hex_run r with
        | (EmptyString, _) => None
        | (run, rest) =>
            if is_prefix (String dquote "]") rest
            then Some ("0x" +:+ run) else None
        end
    | _ => None
    end
  else None.

(** [msg.match(...)?.[1]]: capture group 1 of the leftmost match. *)
Fixpoint raw_tx_match (msg : string) : option string :=
  match raw_tx_here msg with
  | Some raw => Some raw
  | None =>
      match msg with
      | String _ msg' => raw_tx_match msg'
      | EmptyString => None
      end
  end.

(** Where a worker is suspended inside [submitPayment]. *)
Inductive pc :=
| Outside                      (* not in the function *)
| AtInitCount                  (* first [await getTransactionCount] *)
| AtSend (nonce : Z)           (* [await sendTransaction] *)
| AtResync                     (* [await getTransactionCount] in the catch *)
| AtReceipt (hash : string).   (* [await waitForTransactionReceipt] *)

(** What the event loop does next with a worker. *)
Inductive event :=
| Call                              (* the worker calls [submitPayment] *)
| CountResolved (count : Z)
| CountRejected
| SendResolved (hash : string)
| SendRejected (msg : string)
| ReceiptResolved
| ReceiptRejected.

Inductive obs :=
| Claimed (worker : nat) (nonce : Z)    (* passed to [sendTransaction] *)
| Returned (worker : nat) (hash : string)
| Threw (worker : nat).

Record State := {
  nextNonce : option Z;
  workers : list pc
}.

Definition init : State :=
  {| nextNonce := None; workers := replicate MAX_INFLIGHT Outside |}.

Definition set_pc (st : State) (w : nat) (p : pc) : State :=
  {| nextNonce := nextNonce st; workers := <[w := p]> (workers st) |}.

Definition set_nonce (st : State) (n : option Z) : State :=
  {| nextNonce := n; workers := workers st |}.

(** [const nonce = this.nextNonce; this.nextNonce = nonce + 1;] followed
    by the call of [sendTransaction], where the worker is suspended. *)
Definition claim (st : State) (w : nat) (n : Z) : State * list obs :=
  (set_pc (set_nonce st (Some (n + 1))) w (AtSend n), [Claimed w n]).

Section WithHash.
Variable keccak256 : string -> string.

(** The [catch] block, up to its first suspension or its exit. *)
Definition on_send_error (st : State) (w : nat) (nonce : Z) (msg : string)
  : State * list obs :=
  let rethrow st' := (set_pc st' w Outside, [Threw w]) in
  let dup :=
    if test_ci "transaction already in mempool" msg || test_ci "already known" msg
    then raw_tx_match msg else None in
  match dup with
  | Some raw => (set_pc st w (AtReceipt (keccak256 raw)), [])
  | None =>
      if test_ci "nonce too high" msg
      then (set_pc st w AtResync, [])
      else if negb (test_ci "nonce" msg) && negb (test_ci "already in mempool" msg)
      then rethrow (set_nonce st (Some nonce))
      else rethrow st
  end.

(** One run of worker [w] from the point where it is suspended to its
    next suspension; [None] when the event does not fit that point. *)
Definition step (st : State) (w : nat) (e : event) : option (State * list obs) :=
  match workers st !! w, e with
  | Some Outside, Call =>
      match nextNonce st with
      | None => Some (set_pc st w AtInitCount, [])
      | Some n => Some (claim st w n)
      end
  | Some AtInitCount, CountResolved c => Some (claim (set_nonce st (Some c)) w c)
  | Some AtInitCount, CountRejected => Some (set_pc st w Outside, [Threw w])
  | Some (AtSend _), SendResolved h => Some (set_pc st w (AtReceipt h), [])
  | Some (AtSend n), SendRejected msg => Some (on_send_error st w n msg)
  | Some AtResync, CountResolved c =>
      Some (set_pc (set_nonce st (Some c)) w Outside, [Threw w])
  | Some AtResync, CountRejected => Some (set_pc st w Outside, [Threw w])
  | Some (AtReceipt h), ReceiptResolved => Some (set_pc st w Outside, [Returned w h])
  | Some (AtReceipt _), ReceiptRejected => Some (set_pc st w Outside, [Threw w])
  | _, _ => None
  end.

(** A schedule: which worker runs next and on what. *)
Fixpoint run (st : State) (sched : list (nat * event))
  : option (State * list obs) :=
  match sched with
  | [] => Some (st, [])
  | (w, e) :: sched' =>
      match step st w e with
      | None => None
      | Some (st1, o1) =>
          match run st1 sched' with
          | None => None
          | Some (st2, o2) => Some (st2, o1 ++ o2)
          end
      end
  end.
End WithHash.

(** The nonces handed to [sendTransaction], in order. *)
Definition claimed (os : list obs) : list Z :=
  omap (fun o => match o with Claimed _ n => Some n | _ => None end) os.

(** A schedule in which no send is rejected, hence without resync and
    without rollback. *)
Definition no_send_error (sched : list (nat * event)) : Prop :=
  Forall (fun we => match we.2 with SendRejected _ => False | _ => True end) sched.

(** No worker is waiting for a transaction count. *)
Definition no_count_pending (st : State) : Prop :=
  Forall (fun p => p <> AtInitCount /\ p <> AtResync) (workers st).

(** *** Sample data

    Two workers call [submitPayment] before either transaction count has
    come back; both counts are 7. *)
Definition racing_start : list (nat * event) :=
  [(0%nat, Call); (1%nat, Call); (0%nat, CountResolved 7); (1%nat, CountResolved 7)].

(** An agent whose counter is already 7: three payments by two workers. *)
Definition counting_from_7 : State :=
  {| nextNonce := Some 7; workers := replicate MAX_INFLIGHT Outside |}.

Definition three_payments : list (nat * event) :=
  [(0%nat, Call); (1%nat, Call); (0%nat, SendResolved "0xaa"); (0%nat, ReceiptResolved);
   (0%nat, Call)].

End Agent.

(** ** evolve-utils.ts of the simulator: calldata and account ids *)
Module EvolveUtils.
Import JS.

(** One digit of viem's [bytesToHex] table (lower case). *)
Definition hex_digit (n : Z) : ascii :=
  if n <? 10 then ascii_of_nat (Z.to_nat (48 + n)) else ascii_of_nat (Z.to_nat (87 + n)).

(** A byte as its two hexadecimal digits. *)
Definition hex2 (b : Z) : string :=
  String (hex_digit (b / 16)) (String (hex_digit (b mod 16)) EmptyString).

Definition hex_of_bytes (bytes : list Z) : string :=
  foldr (fun b acc => hex2 b +:+ acc) EmptyString bytes.

(** viem's [bytesToHex(bytes)]. *)
Definition bytesToHex (bytes : list Z) : string := "0x" +:+ hex_of_bytes bytes.

(** The loop [bytes[i] = Number(v & 0xffn); v >>= 8n] run [n] times from
    index 0 upwards. *)
Fixpoint le_bytes (n : nat) (v : Z) : list Z :=
  match n with
  | O => []
  | S n' => Z.land v 255 :: le_bytes n' (Z.shiftr v 8)
  end.

(** [u128ToLeBytes(value)]. *)
Definition u128ToLeBytes (value : Z) : list Z := le_bytes 16 value.

(** [accountIdFromInt(id)]: the same loop filling 32 bytes from index 31
    downwards. *)
Definition accountIdFromInt (id : Z) : list Z := reverse (le_bytes 32 id).

(** [data.set(src, offset)] on a [Uint8Array]: [None] is the [RangeError]
    thrown when the source does not fit. *)
Definition typed_set (data src : list Z) (offset : nat) : option (list Z) :=
  if (offset + length src <=? length data)%nat
  then Some (take offset data ++ src ++ drop (offset + length src) data)
  else None.

(** The 52 bytes that [buildTransferData] assembles.  [selectorBytes] stands
    for [hexToBytes(keccak256(toBytes("transfer")).slice(0, 10))], four
    bytes of a hash computed by viem. *)
Definition transfer_bytes (selectorBytes toAccountId : list Z) (amount : Z)
  : option (list Z) :=
  let amountBytes := u128ToLeBytes amount in
  let data := replicate (4 + 32 + 16) 0 in
  data1 ← typed_set data selectorBytes 0;
  data2 ← typed_set data1 toAccountId 4;
  typed_set data2 amountBytes 36.

(** [buildTransferData(toAccountId, amount)]. *)
Definition buildTransferData (selectorBytes toAccountId : list Z) (amount : Z)
  : option string :=
  bytesToHex <$> transfer_bytes selectorBytes toAccountId amount.

(** The private keys of the Hardhat accounts 3 to 19. *)
Definition HARDHAT_AGENT_KEYS : list string :=
  [ "0x7c852118294e51e653712a81e05800f419141751be58f605c371e15141b007a6";
    "0x47e179ec197488593b187f80a00eb0da91f1b9d0b13f8733639f19c30a34926a";
    "0x8b3a350cf5c34c9194ca85829a2df0ec3153be0318b5e2d3348e872092edffba";
    "0x92db14e403b83dfe3df233f83dfa3ecda7b66277101571b642875e5aba2be7b8";
    "0x4bbbf85ce3377467afe5d46f804f221813b2bb87f24d81f60f1fcdbf7cbf4356";
    "0xdbda1821b80551c9d65939329250298aa3472ba22feea921c0cf5d620ea67b97";
    "0x2a871d0798f97d79848a013d4936a73bf4cc922c825d33c1cf7073dff6d409c6";
    "0xf214f2b2cd398c806f84e317254e0f0b801d0643303237d97a22a48e01628897";
    "0x701b615bbdfb9de65240bc28bd21bbc0d996645a3dd57e7b12bc2bdf6f192c82";
    "0xa267530f49f8280200edf313ee7af6b827f2a8bce2897751d06a843f644967b1";
    "0x47c99abed3324a2707c28affff1267e45918ec8c3f20b8aa892e8b065d2942dd";
    "0xc526ee95bf44d8fc405a158bb884d9d1238d99f0612e9f33d006bb0789009aaa";
    "0x8166f546bab6da521a8369cab06c5d2b9e46670292d85c875ee9ec20e84ffb61";
    "0xea6c44ac03bff858b476bba40716402b03e41b8e97e276d1baec7c37d42484a0";
    "0x689af8efa8c651a91ad287602527f3af2fe9f6501a7ac4b061667b5a93e037fd";
    "0xde9be858da4a475276426320d5e9262ecfc3ba460bfac56360bfa6c4c28b4ee0";
    "0xdf57089febbacf7ba0bc227dafbffa9fc08a93fdc68e1e42411a14efcf23656e" ]%string.

(** [getAgentPrivateKeys(agentCount)] for an integer count.
    [generated i] is the key that the [i]-th call of [generatePrivateKey]
    returns.  [keys.slice(0, count)] with a negative count drops that many
    keys from the end. *)
Definition getAgentPrivateKeys (generated : nat -> string) (agentCount : Z)
  : list string :=
  let missing := Z.to_nat (agentCount - Z.of_nat (length HARDHAT_AGENT_KEYS)) in
  let keys := HARDHAT_AGENT_KEYS ++ map generated (seq 0 missing) in
  if 0 <=? agentCount then take (Z.to_nat agentCount) keys
  else take (length keys - Z.to_nat (- agentCount)) keys.

(** *** Sample data *)
(** The four bytes [b4 83 af d3] that open the Keccak-256 hash of the
    text [transfer]. *)
Definition sample_selector : list Z := [180; 131; 175; 211].

End EvolveUtils.

(** ** evolve-utils.ts, the revision with integer account ids
    (simulator/src/evolve-utils.ts) *)
Module AccountIds.
Import JS EvolveUtils.

(** [accountIdToAddress(id)]: sixteen bytes of [id], most significant
    first, behind four zero bytes. *)
Definition accountIdToAddress (id : Z) : string :=
  let idBytes := reverse (le_bytes 16 id) in
  match typed_set (replicate 20 0) idBytes 4 with
  | Some addrBytes => bytesToHex addrBytes
  | None => EmptyString
  end.

(** [addressToAccountId(address)]: [None] is the [SyntaxError] of
    [BigInt]. *)
Definition addressToAccountId (address : string) : option Z :=
  let hex := str_slice_from 2 address in
  let idHex := str_slice_from 8 hex in
  BigInt_of_string ("0x" +:+ idHex).

End AccountIds.

(** ** EventEmitter: the queries and the emit helpers (server/src/events.ts) *)
Module EventQueries.
Import JS Events.

(** [arr.slice(start)] for an integer [start]: a negative start counts
    from the end, and both ends are clamped to the array. *)
Definition slice_from {A : Type} (start : Z) (arr : list A) : list A :=
  let len := Z.of_nat (length arr) in
  let k := if start <? 0 then Z.max (len + start) 0 else Z.min start len in
  drop (Z.to_nat k) arr.

(** [getRecentEvents(count)]: [eventLog.slice(-count)]; the negation of 0
    is a zero, so [slice] starts at index 0 then. *)
Definition getRecentEvents (st : State) (count : Z) : list PaymentEvent :=
  slice_from (- count) (eventLog st).

(** The default argument [count = 100]. *)
Definition getRecentEvents_default (st : State) : list PaymentEvent :=
  getRecentEvents st 100.

(** The object that [getMetrics] fills; [uniqueAgents] is a [Set], kept in
    insertion order. *)
Record EmitterMetrics := {
  totalPayments : Z;
  successfulPayments : Z;
  failedPayments : Z;
  totalRequests : Z;
  uniqueAgents : list string
}.

Definition string_set_add (x : string) (s : list string) : list string :=
  if bool_decide (x ∈ s) then s else s ++ [x].

(** One iteration of the loop of [getMetrics]. *)
Definition count_event (m : EmitterMetrics) (event : PaymentEvent) : EmitterMetrics :=
  let agents :=
    if String.eqb (agentId event) EmptyString then uniqueAgents m
    else string_set_add (agentId event) (uniqueAgents m) in
  match type event with
  | payment_submitted =>
      {| totalPayments := totalPayments m + 1;
         successfulPayments := successfulPayments m;
         failedPayments := failedPayments m;
         totalRequests := totalRequests m; uniqueAgents := agents |}
  | payment_confirmed =>
      {| totalPayments := totalPayments m;
         successfulPayments := successfulPayments m + 1;
         failedPayments := failedPayments m;
         totalRequests := totalRequests m; uniqueAgents := agents |}
  | payment_failed =>
      {| totalPayments := totalPayments m;
         successfulPayments := successfulPayments m;
         failedPayments := failedPayments m + 1;
         totalRequests := totalRequests m; uniqueAgents := agents |}
  | request_served =>
      {| totalPayments := totalPayments m;
         successfulPayments := successfulPayments m;
         failedPayments := failedPayments m;
         totalRequests := totalRequests m + 1; uniqueAgents := agents |}
  | _ =>
      {| totalPayments := totalPayments m;
         successfulPayments := successfulPayments m;
         failedPayments := failedPayments m;
         totalRequests := totalRequests m; uniqueAgents := agents |}
  end.

Definition no_metrics : EmitterMetrics :=
  {| totalPayments := 0; successfulPayments := 0; failedPayments := 0;
     totalRequests := 0; uniqueAgents := [] |}.

(** [getMetrics()]. *)
Definition getMetrics (st : State) : EmitterMetrics :=
  foldl count_event no_metrics (eventLog st).

(** The events that the four helpers hand to [eventEmitter.emit]; [now]
    is the reading of [Date.now()] in the helper. *)
Definition paymentSubmitted (now : Z) (agent : string) (hash : string)
    (amt : string) (sender recipient : option string) : PaymentEvent :=
  {| type := payment_submitted; timestamp := now; agentId := agent;
     txHash := Some hash; amount := Some amt; endpoint := None;
     latencyMs := None; error := None; from := sender; to := recipient |}.

Definition paymentConfirmed (now : Z) (agent : string) (hash : string)
    (latency : option Z) : PaymentEvent :=
  {| type := payment_confirmed; timestamp := now; agentId := agent;
     txHash := Some hash; amount := None; endpoint := None;
     latencyMs := latency; error := None; from := None; to := None |}.

Definition paymentFailed (now : Z) (agent : string) (hash : string)
    (err : string) : PaymentEvent :=
  {| type := payment_failed; timestamp := now; agentId := agent;
     txHash := Some hash; amount := None; endpoint := None;
     latencyMs := None; error := Some err; from := None; to := None |}.

Definition requestServed (now : Z) (agent : string) (path : string)
    (latency : Z) (hash : option string) : PaymentEvent :=
  {| type := request_served; timestamp := now; agentId := agent;
     txHash := hash; amount := None; endpoint := Some path;
     latencyMs := Some latency; error := None; from := None; to := None |}.

#[global] Instance PaymentEventType_eq_dec : EqDecision PaymentEventType.
Proof. solve_decision. Defined.

(** How many events of the log have the given type. *)
Definition count_type (ty : PaymentEventType) (log : list PaymentEvent) : Z :=
  Z.of_nat (length (filter (fun e => type e = ty) log)).

End EventQueries.

(** ** The event hooks of the resource server (server/src/x402/hooks.ts) *)
Module Hooks.
Import JS Events EventQueries.

Definition EVICTION_AGE_MS : Z := 300000.

(** The two module-level maps. *)
Record State := {
  txAgentMap : gmap string string;
  verifyTimestamps : gmap string Z
}.

Definition init : State := {| txAgentMap := ∅; verifyTimestamps := ∅ |}.

Definition aged (now ts : Z) : bool := EVICTION_AGE_MS <? now - ts.

(** One iteration of the loop of the interval callback. *)
Definition sweep_entry (now : Z) (entry : string * Z) (st : State) : State :=
  if aged now entry.2
  then {| txAgentMap := delete entry.1 (txAgentMap st);
          verifyTimestamps := delete entry.1 (verifyTimestamps st) |}
  else st.

(** The callback of [setInterval], run at time [now]. *)
Definition sweep (now : Z) (st : State) : State :=
  foldr (sweep_entry now) st (map_to_list (verifyTimestamps st)).

(** A header value or a string field used as a condition. *)
Definition truthy (v : option string) : bool :=
  match v with
  | Some (String _ _) => true
  | _ => false
  end.

(** [extractTx(payload)]: the agent recorded for the hash, or the first
    ten characters of the hash. *)
Definition extractTx (st : State) (hash : string) : string * string :=
  (hash, default (str_slice 0 10 hash) (txAgentMap st !! hash)).

Section WithParsers.
(** [decode sig] is [decoded?.payload?.txHash] of the JSON behind the
    base64 header, [None] when decoding throws or the field is missing;
    [pathname url] is [new URL(url).pathname], [None] when [URL] throws. *)
Variable decode : string -> option string.
Variable pathname : string -> option string.

(** The middleware [captureAgentId()], up to [await next()]. *)
Definition captureAgentId (st : State) (agentHeader sigHeader : option string)
  : State :=
  match agentHeader, sigHeader with
  | Some agent, Some sig =>
      if truthy agentHeader && truthy sigHeader
      then match decode sig with
           | Some hash =>
               if truthy (Some hash)
               then {| txAgentMap := <[hash := agent]> (txAgentMap st);
                       verifyTimestamps := verifyTimestamps st |}
               else st
           | None => st
           end
      else st
  | _, _ => st
  end.

(** [extractEndpoint(payload)]. *)
Definition extractEndpoint (url : option string) : string :=
  default "unknown"%string (pathname (default EmptyString url)).

(** [onAfterVerify]: [now] is the reading stored in [verifyTimestamps],
    [t] the one of the emit helper. *)
Definition onAfterVerify (st : State) (hash amt payTo : string) (isValid : bool)
    (now t : Z) : State * list PaymentEvent :=
  if negb isValid then (st, [])
  else
    let '(hash, agent) := extractTx st hash in
    ({| txAgentMap := txAgentMap st;
        verifyTimestamps := <[hash := now]> (verifyTimestamps st) |},
     [paymentSubmitted t agent hash amt None (Some payTo)]).

(** [startTime ? Date.now() - startTime : 0]. *)
Definition latency_since (startTime : option Z) (now : Z) : Z :=
  match startTime with
  | Some s => if s =? 0 then 0 else now - s
  | None => 0
  end.

(** [onAfterSettle]: [now] is the reading used for the latency, [t1] and
    [t2] are those of the two emit helpers. *)
Definition onAfterSettle (st : State) (hash : string) (url : option string)
    (now t1 t2 : Z) : State * list PaymentEvent :=
  let '(hash, agent) := extractTx st hash in
  let startTime := verifyTimestamps st !! hash in
  let latency := latency_since startTime now in
  ({| txAgentMap := txAgentMap st;
      verifyTimestamps := delete hash (verifyTimestamps st) |},
   [paymentConfirmed t1 agent hash (Some latency);
    requestServed t2 agent (extractEndpoint url) latency (Some hash)]).

(** [onVerifyFailure] and [onSettleFailure]; [message] is
    [error?.message]. *)
Definition onVerifyFailure (st : State) (hash : string) (message : option string)
    (t : Z) : State * list PaymentEvent :=
  let '(hash, agent) := extractTx st hash in
  (st, [paymentFailed t agent hash (default "Verification failed"%string message)]).

Definition onSettleFailure (st : State) (hash : string) (message : option string)
    (t : Z) : State * list PaymentEvent :=
  let '(hash, agent) := extractTx st hash in
  (st, [paymentFailed t agent hash (default "Settlement failed"%string message)]).

(** What happens to the two maps, in the order it happens. *)
Inductive op :=
| Sweep (now : Z)
| Capture (agentHeader sigHeader : option string)
| AfterVerify (hash amt payTo : string) (isValid : bool) (now t : Z)
| AfterSettle (hash : string) (url : option string) (now t1 t2 : Z)
| VerifyFailure (hash : string) (message : option string) (t : Z)
| SettleFailure (hash : string) (message : option string) (t : Z).

Definition apply_op (st : State) (o : op) : State * list PaymentEvent :=
  match o with
  | Sweep now => (sweep now st, [])
  | Capture a s => (captureAgentId st a s, [])
  | AfterVerify h amt payTo v now t => onAfterVerify st h amt payTo v now t
  | AfterSettle h url now t1 t2 => onAfterSettle st h url now t1 t2
  | VerifyFailure h m t => onVerifyFailure st h m t
  | SettleFailure h m t => onSettleFailure st h m t
  end.

Definition run_ops (st : State) (ops : list op) : State :=
  foldl (fun s o => (apply_op s o).1) st ops.

(** The operation stores a verify time for [h]. *)
Definition stamps (h : string) (o : op) : Prop :=
  match o with
  | AfterVerify h' _ _ true _ _ => h' = h
  | _ => False
  end.

(** The operation may set or clear the verify time of [h]: a hook for
    [h] after a valid verify or after settle, or a sweep later than
    [limit]. *)
Definition touches (h : string) (limit : Z) (o : op) : Prop :=
  match o with
  | AfterVerify h' _ _ true _ _ => h' = h
  | AfterSettle h' _ _ _ _ => h' = h
  | Sweep now => limit < now
  | _ => False
  end.

End WithParsers.

(** *** Sample data *)
Definition decode_plain (sig : string) : option string := Some sig.
Definition pathname_plain (url : string) : option string :=
  match url with
  | EmptyString => None
  | _ => Some "/api/transform/echo"%string
  end.

End Hooks.

(** ** The life of a MetricsCollector (simulator/src/metrics.ts) *)
Module Collector.
Import JS Metrics.

(** The states of a collector: it starts empty and is only changed
    through its public methods. *)
Inductive reachable : State -> Prop :=
| r_init : reachable init
| r_start st now : reachable st -> reachable (start st now)
| r_register st id addr : reachable st -> reachable (registerAgent st id addr)
| r_record st result : reachable st -> reachable (recordRequest st result)
| r_balance st id b : reachable st -> reachable (updateAgentBalance st id b)
| r_poll st now : reachable st -> reachable (getPoolMetrics st now).1.

(** The counters of every agent add up and are not negative. *)
Definition counters_add_up (st : State) : Prop :=
  forall id m, agentMetrics st !! id = Some m ->
    totalRequests m = successfulRequests m + failedRequests m
    /\ 0 <= successfulRequests m /\ 0 <= failedRequests m.

(** *** Sample data *)
Definition two_agents : State :=
  start (registerAgent (registerAgent init "agent-1" "0x01") "agent-2" "0x02") 0.

Definition result_with (ok : bool) (id : string) (latency t : Z) : RequestResult :=
  {| success := ok; agentId := id; endpoint := "POST /api/transform/echo";
     txHash := None; latencyMs := latency; paymentLatencyMs := None;
     error := None; timestamp := t |}.

(** The [n] numbers [from], [from + 1], ... *)
Fixpoint count_up (n : nat) (from : Z) : list Z :=
  match n with
  | O => []
  | S n' => from :: count_up n' (from + 1)
  end.

(** A collector whose buffer is full: agent-1 answered 10000 requests
    with the latencies 1, 2, ..., 10000. *)
Definition full_buffer : State :=
  foldl recordRequest two_agents
        ((fun i => result_with true "agent-1" i i) <$> count_up (Z.to_nat 10000) 1).

End Collector.

(** ** Configuration of the simulator (simulator/src/config.ts) *)
Module Config.
Import JS.

(** A weighted endpoint; the [payload] closure plays no part in what is
    modelled.  Weights are integers, as all configured weights are. *)
Record WeightedEndpoint := {
  method : string;
  path : string;
  weight : Z
}.

Definition DEFAULT_ENDPOINTS : list WeightedEndpoint :=
  [ {| method := "POST"; path := "/api/transform/reverse"; weight := 40 |};
    {| method := "POST"; path := "/api/transform/uppercase"; weight := 30 |};
    {| method := "POST"; path := "/api/transform/hash"; weight := 20 |};
    {| method := "POST"; path := "/api/transform/echo"; weight := 10 |} ].

(** [parseInt(s, 10)]: leading white space, one sign, then the longest
    run of decimal digits; [None] stands for [NaN]. *)
Definition parseInt10 (s : string) : option Z :=
  let s1 := skip_space s in
  let '(sign, s2) :=
    match s1 with
    | String "-" r => (-1, r)
    | String "+" r => (1, r)
    | _ => (1, s1)
    end in
  let '(v, n, _) := read_digits 10 s2 0 O in
  match n with
  | O => None
  | S _ => Some (sign * v)
  end.

(** The options as [main] passes them: the two counts come from
    [parseInt], so each is an integer or [NaN] ([None]). *)
Record CLIOptions := {
  agents : option Z;
  rps : option Z;
  server : string;
  evolveRpc : string;
  funding : string;
  faucetKey : option string
}.

Record PoolConfig := {
  agentCount : option Z;
  fundingAmount : Z;
  serverUrl : string;
  evolveRpcUrl : string;
  requestsPerSecond : option Z;
  faucetPrivateKey : string;
  endpoints : list WeightedEndpoint
}.

(** [createPoolConfig(options)]; [env] is [process.env.FAUCET_PRIVATE_KEY].
    [None] is a thrown error: the missing key, or the [SyntaxError] of
    [BigInt]. *)
Definition createPoolConfig (options : CLIOptions) (env : option string)
  : option PoolConfig :=
  let key := match faucetKey options with Some k => Some k | None => env end in
  match key with
  | None | Some EmptyString => None
  | Some k =>
      amount ← BigInt_of_string (funding options);
      Some {| agentCount := agents options;
              fundingAmount := amount;
              serverUrl := server options;
              evolveRpcUrl := evolveRpc options;
              requestsPerSecond := rps options;
              faucetPrivateKey := k;
              endpoints := DEFAULT_ENDPOINTS |}
  end.

(** [x < bound] and [x > bound] on a number that may be [NaN]. *)
Definition num_lt (x : option Z) (bound : Z) : bool :=
  match x with Some n => n <? bound | None => false end.

Definition num_gt (x : option Z) (bound : Z) : bool :=
  match x with Some n => bound <? n | None => false end.

(** [if (cond) errors.push(msg)]. *)
Definition push_if (cond : bool) (msg : string) (errors : list string) : list string :=
  if cond then errors ++ [msg] else errors.

Definition totalWeight (es : list WeightedEndpoint) : Z :=
  foldl (fun sum e => sum + weight e) 0 es.

(** [validateConfig(config)]. *)
Definition validateConfig (config : PoolConfig) : list string :=
  let errors := [] in
  let errors := push_if (num_lt (agentCount config) 1)
                  "Agent count must be at least 1" errors in
  let errors := push_if (num_gt (agentCount config) 5000)
                  "Agent count exceeds maximum (5000)" errors in
  let errors := push_if (num_lt (requestsPerSecond config) 1)
                  "Requests per second must be at least 1" errors in
  let errors := push_if (num_gt (requestsPerSecond config) 10000)
                  "Requests per second exceeds maximum (10000)" errors in
  let errors := push_if (fundingAmount config <=? 0)
                  "Funding amount must be positive" errors in
  let errors := push_if (negb (String.prefix "http" (serverUrl config)))
                  "Server URL must be a valid HTTP URL" errors in
  let errors := push_if (negb (String.prefix "http" (evolveRpcUrl config)))
                  "Evolve RPC URL must be a valid HTTP URL" errors in
  let errors := push_if (negb (String.prefix "0x" (faucetPrivateKey config)))
                  "Faucet private key must be a hex string starting with 0x" errors in
  let errors := push_if (totalWeight (endpoints config) <=? 0)
                  "Endpoint weights must sum to a positive number" errors in
  errors.

(** The configuration that [main] builds and whether it goes on: the
    errors of [validateConfig], or [None] when [createPoolConfig] threw. *)
Definition main_errors (agentsArg rpsArg : string) (server evolveRpc funding : string)
    (faucetKey env : option string) : option (list string) :=
  validateConfig <$>
    createPoolConfig
      {| agents := parseInt10 agentsArg; rps := parseInt10 rpsArg;
         server := server; evolveRpc := evolveRpc; funding := funding;
         faucetKey := faucetKey |} env.

End Config.

(** ** The dashboard: event buffer and counters
    (frontend/src/hooks/useEventStream.ts, frontend/src/hooks/useMetrics.ts) *)
Module Dashboard.
Import JS Events.

(** [ws.onmessage] of [useEventStream]: a history message replaces the
    buffer, a single event is appended and the last 500 are kept. *)
Definition receive (prev : list PaymentEvent) (message : Message) : list PaymentEvent :=
  match message with
  | History events => events
  | Single event => slice_last 500 (prev ++ [event])
  end.

Inductive LastStatus := StatusOk | StatusFailed | StatusPending.

Record AgentStatus := {
  id : string;
  totalRequests : Z;
  successfulRequests : Z;
  failedRequests : Z;
  totalLatencyMs : Z;
  lastSeen : Z;
  lastStatus : LastStatus
}.

Definition MAX_LATENCY_SAMPLES : Z := 2000.

(** [countersRef.current] together with [recentRequestsRef.current]. *)
Record Counters := {
  c_totalRequests : Z;
  c_successfulRequests : Z;
  c_failedRequests : Z;
  c_mempoolErrors : Z;
  processedCount : nat;
  c_agents : gmap string AgentStatus;
  c_latencies : list Z;
  latencySum : Z;
  recentRequests : list Z
}.

Definition no_counters : Counters :=
  {| c_totalRequests := 0; c_successfulRequests := 0; c_failedRequests := 0;
     c_mempoolErrors := 0; processedCount := 0; c_agents := ∅;
     c_latencies := []; latencySum := 0; recentRequests := [] |}.

(** [isMempoolError(message)]. *)
Definition isMempoolError (message : option string) : bool :=
  match message with
  | Some (String _ _ as m) =>
      Agent.test_ci "transaction already in mempool" m || Agent.test_ci "already known" m
  | _ => false
  end.

(** The entry of the agent of [event], created if missing, with
    [lastSeen] set. *)
Definition seen_agent (agents : gmap string AgentStatus) (event : PaymentEvent)
  : AgentStatus :=
  let a := default {| id := agentId event; totalRequests := 0; successfulRequests := 0;
                      failedRequests := 0; totalLatencyMs := 0;
                      lastSeen := timestamp event; lastStatus := StatusPending |}
             (agents !! agentId event) in
  {| id := id a; totalRequests := totalRequests a;
     successfulRequests := successfulRequests a; failedRequests := failedRequests a;
     totalLatencyMs := totalLatencyMs a; lastSeen := timestamp event;
     lastStatus := lastStatus a |}.

(** [event.latencyMs] as a condition: present and not 0. *)
Definition truthy_latency (event : PaymentEvent) : option Z :=
  match latencyMs event with
  | Some l => if l =? 0 then None else Some l
  | None => None
  end.

(** The push of a latency with the cap: when the array has grown past
    [MAX_LATENCY_SAMPLES] its first element is shifted out and taken off
    the sum. *)
Definition push_latency (lats : list Z) (total : Z) (l : Z) : list Z * Z :=
  let lats1 := lats ++ [l] in
  let total1 := total + l in
  if MAX_LATENCY_SAMPLES <? Z.of_nat (length lats1)
  then match lats1 with
       | removed :: rest => (rest, total1 - removed)
       | [] => (lats1, total1)
       end
  else (lats1, total1).

(** One iteration of the loop over the new events; [now] is the reading
    of [Date.now()] in this iteration and the flag is [changed]. *)
Definition process_event (now : Z) (st : Counters * bool) (event : PaymentEvent)
  : Counters * bool :=
  let '(c, changed) := st in
  if String.eqb (agentId event) EmptyString then (c, changed)
  else
    let a := seen_agent (c_agents c) event in
    match type event with
    | request_served =>
        let a1 l := {| id := id a; totalRequests := totalRequests a + 1;
                       successfulRequests := successfulRequests a + 1;
                       failedRequests := failedRequests a;
                       totalLatencyMs := totalLatencyMs a + l;
                       lastSeen := lastSeen a; lastStatus := StatusOk |} in
        let '(lats, total, a2) :=
          match truthy_latency event with
          | Some l =>
              let '(lats, total) := push_latency (c_latencies c) (latencySum c) l in
              (lats, total, a1 l)
          | None => (c_latencies c, latencySum c, a1 0)
          end in
        ({| c_totalRequests := c_totalRequests c + 1;
            c_successfulRequests := c_successfulRequests c + 1;
            c_failedRequests := c_failedRequests c;
            c_mempoolErrors := c_mempoolErrors c;
            processedCount := processedCount c;
            c_agents := <[agentId event := a2]> (c_agents c);
            c_latencies := lats;
            latencySum := total;
            recentRequests :=
              if now - timestamp event <? 2000
              then recentRequests c ++ [timestamp event] else recentRequests c |},
         true)
    | payment_failed | error_event =>
        ({| c_totalRequests := c_totalRequests c + 1;
            c_successfulRequests := c_successfulRequests c;
            c_failedRequests := c_failedRequests c + 1;
            c_mempoolErrors :=
              if isMempoolError (error event) then c_mempoolErrors c + 1
              else c_mempoolErrors c;
            processedCount := processedCount c;
            c_agents :=
              <[agentId event :=
                  {| id := id a; totalRequests := totalRequests a;
                     successfulRequests := successfulRequests a;
                     failedRequests := failedRequests a + 1;
                     totalLatencyMs := totalLatencyMs a;
                     lastSeen := lastSeen a; lastStatus := StatusFailed |}]> (c_agents c);
            c_latencies := c_latencies c;
            latencySum := latencySum c;
            recentRequests := recentRequests c |},
         true)
    | payment_submitted =>
        ({| c_totalRequests := c_totalRequests c;
            c_successfulRequests := c_successfulRequests c;
            c_failedRequests := c_failedRequests c;
            c_mempoolErrors := c_mempoolErrors c;
            processedCount := processedCount c;
            c_agents :=
              <[agentId event :=
                  {| id := id a; totalRequests := totalRequests a;
                     successfulRequests := successfulRequests a;
                     failedRequests := failedRequests a;
                     totalLatencyMs := totalLatencyMs a;
                     lastSeen := lastSeen a; lastStatus := StatusPending |}]> (c_agents c);
            c_latencies := c_latencies c;
            latencySum := latencySum c;
            recentRequests := recentRequests c |},
         true)
    | _ =>
        ({| c_totalRequests := c_totalRequests c;
            c_successfulRequests := c_successfulRequests c;
            c_failedRequests := c_failedRequests c;
            c_mempoolErrors := c_mempoolErrors c;
            processedCount := processedCount c;
            c_agents := <[agentId event := a]> (c_agents c);
            c_latencies := c_latencies c;
            latencySum := latencySum c;
            recentRequests := recentRequests c |},
         changed)
    end.

(** The loop [for (i = startIdx; i < events.length; i++)] over the events
    from index [i] on; [clock i] is the reading of [Date.now()] in
    iteration [i]. *)
Fixpoint process_from (clock : nat -> Z) (i : nat) (events : list PaymentEvent)
    (st : Counters * bool) : Counters * bool :=
  match events with
  | [] => st
  | event :: rest => process_from clock (S i) rest (process_event (clock i) st event)
  end.

Definition bucket (lat : Z) : nat :=
  if lat <? 50 then 0
  else if lat <? 100 then 1
  else if lat <? 200 then 2
  else if lat <? 500 then 3
  else 4.

(** The histogram loop. *)
Definition histogram (lats : list Z) : list Z :=
  foldl (fun buckets lat => alter (fun n => n + 1) (bucket lat) buckets)
        [0; 0; 0; 0; 0] lats.

(** What [setMetrics] receives.  The rate and the average are doubles,
    computed in binary64 as the code does from counts and a latency sum
    that doubles hold exactly below 2^53. *)
Record DashboardMetrics := {
  m_totalRequests : Z;
  m_successfulRequests : Z;
  m_failedRequests : Z;
  m_mempoolErrors : Z;
  successRate : float;
  avgLatencyMs : float;
  p50LatencyMs : option Z;
  p95LatencyMs : option Z;
  p99LatencyMs : option Z;
  currentTps : Z;
  m_agents : gmap string AgentStatus;
  latencyHistogram : list Z
}.

Definition metrics_of (tps : Z) (c : Counters) : DashboardMetrics :=
  let sorted := merge_sort Z.le (c_latencies c) in
  let avg : float :=
    if (0 <? length sorted)%nat
    then PrimFloat.div (number_of_int (latencySum c))
                       (number_of_Z (Z.of_nat (length sorted)))
    else 0%float in
  let rate : float :=
    if 0 <? c_totalRequests c
    then PrimFloat.mul (PrimFloat.div (number_of_int (c_successfulRequests c))
                                      (number_of_int (c_totalRequests c))) 100
    else 0%float in
  {| m_totalRequests := c_totalRequests c;
     m_successfulRequests := c_successfulRequests c;
     m_failedRequests := c_failedRequests c;
     m_mempoolErrors := c_mempoolErrors c;
     successRate := PrimFloat.div (Math_round_number (PrimFloat.mul rate 10)) 10;
     avgLatencyMs := Math_round_number avg;
     p50LatencyMs := Metrics.percentile sorted 50%float;
     p95LatencyMs := Metrics.percentile sorted 95%float;
     p99LatencyMs := Metrics.percentile sorted 99%float;
     currentTps := tps;
     m_agents := c_agents c;
     latencyHistogram := histogram (c_latencies c) |}.

Definition with_processed (c : Counters) (n : nat) : Counters :=
  {| c_totalRequests := c_totalRequests c;
     c_successfulRequests := c_successfulRequests c;
     c_failedRequests := c_failedRequests c;
     c_mempoolErrors := c_mempoolErrors c;
     processedCount := n;
     c_agents := c_agents c;
     c_latencies := c_latencies c;
     latencySum := latencySum c;
     recentRequests := recentRequests c |}.

(** The effect of [useMetrics] that processes the new events, run with
    the buffer [events]; the second component is the argument of
    [setMetrics] when it is called. *)
Definition effect (clock : nat -> Z) (tps : Z) (c : Counters)
    (events : list PaymentEvent) : Counters * option DashboardMetrics :=
  let startIdx := processedCount c in
  if (length events <? startIdx)%nat
  then (with_processed c (length events), None)
  else
    let '(c1, changed) := process_from clock startIdx (drop startIdx events) (c, false) in
    let c2 := with_processed c1 (length events) in
    (c2, if changed then Some (metrics_of tps c2) else None).

(** The interval callback that computes the TPS at time [now]. *)
Definition tick (now : Z) (c : Counters) : Counters * Z :=
  let recent := filter (fun t => now - t < 1000) (recentRequests c) in
  ({| c_totalRequests := c_totalRequests c;
      c_successfulRequests := c_successfulRequests c;
      c_failedRequests := c_failedRequests c;
      c_mempoolErrors := c_mempoolErrors c;
      processedCount := processedCount c;
      c_agents := c_agents c;
      c_latencies := c_latencies c;
      latencySum := latencySum c;
      recentRequests := recent |},
   Z.of_nat (length recent)).

(** The dashboard while messages arrive: the buffer of [useEventStream]
    and the counters of [useMetrics], whose effect runs after every
    change of the buffer. *)
Definition on_message (clock : nat -> Z) (tps : Z)
    (st : list PaymentEvent * Counters) (message : Message)
  : list PaymentEvent * Counters :=
  let events := receive st.1 message in
  (events, (effect clock tps st.2 events).1).

Definition on_messages (clock : nat -> Z) (tps : Z)
    (st : list PaymentEvent * Counters) (messages : list Message)
  : list PaymentEvent * Counters :=
  foldl (on_message clock tps) st messages.

(** The counters a dashboard can hold. *)
Inductive reachable : Counters -> Prop :=
| d_init : reachable no_counters
| d_effect clock tps c events :
    reachable c -> reachable (effect clock tps c events).1
| d_tick now c : reachable c -> reachable (tick now c).1.

End Dashboard.

(** ** The dashboard, revision that recomputes from the buffer
    (frontend/src/hooks/useMetrics.ts with [useMemo]) *)
Module DashboardMemo.
Import JS Events Dashboard.

(** The local variables of the [useMemo] callback. *)
Record Tally := {
  t_agents : gmap string AgentStatus;
  t_latencies : list Z;
  t_totalRequests : Z;
  t_successfulRequests : Z;
  t_failedRequests : Z;
  t_mempoolErrors : Z
}.

Definition no_tally : Tally :=
  {| t_agents := ∅; t_latencies := []; t_totalRequests := 0;
     t_successfulRequests := 0; t_failedRequests := 0; t_mempoolErrors := 0 |}.

(** One iteration of the loop over the buffer. *)
Definition tally_event (t : Tally) (event : PaymentEvent) : Tally :=
  if String.eqb (agentId event) EmptyString then t
  else
    let a := seen_agent (t_agents t) event in
    match type event with
    | request_served =>
        let l := default 0 (truthy_latency event) in
        {| t_agents :=
             <[agentId event :=
                 {| id := id a; totalRequests := totalRequests a + 1;
                    successfulRequests := successfulRequests a + 1;
                    failedRequests := failedRequests a;
                    totalLatencyMs := totalLatencyMs a + l;
                    lastSeen := lastSeen a; lastStatus := StatusOk |}]> (t_agents t);
           t_latencies :=
             match truthy_latency event with
             | Some l => t_latencies t ++ [l]
             | None => t_latencies t
             end;
           t_totalRequests := t_totalRequests t + 1;
           t_successfulRequests := t_successfulRequests t + 1;
           t_failedRequests := t_failedRequests t;
           t_mempoolErrors := t_mempoolErrors t |}
    | payment_failed | error_event =>
        {| t_agents :=
             <[agentId event :=
                 {| id := id a; totalRequests := totalRequests a;
                    successfulRequests := successfulRequests a;
                    failedRequests := failedRequests a + 1;
                    totalLatencyMs := totalLatencyMs a;
                    lastSeen := lastSeen a; lastStatus := StatusFailed |}]> (t_agents t);
           t_latencies := t_latencies t;
           t_totalRequests := t_totalRequests t;
           t_successfulRequests := t_successfulRequests t;
           t_failedRequests := t_failedRequests t + 1;
           t_mempoolErrors :=
             if isMempoolError (error event) then t_mempoolErrors t + 1
             else t_mempoolErrors t |}
    | payment_submitted =>
        {| t_agents :=
             <[agentId event :=
                 {| id := id a; totalRequests := totalRequests a;
                    successfulRequests := successfulRequests a;
                    failedRequests := failedRequests a;
                    totalLatencyMs := totalLatencyMs a;
                    lastSeen := lastSeen a; lastStatus := StatusPending |}]> (t_agents t);
           t_latencies := t_latencies t;
           t_totalRequests := t_totalRequests t;
           t_successfulRequests := t_successfulRequests t;
           t_failedRequests := t_failedRequests t;
           t_mempoolErrors := t_mempoolErrors t |}
    | _ =>
        {| t_agents := <[agentId event := a]> (t_agents t);
           t_latencies := t_latencies t;
           t_totalRequests := t_totalRequests t;
           t_successfulRequests := t_successfulRequests t;
           t_failedRequests := t_failedRequests t;
           t_mempoolErrors := t_mempoolErrors t |}
    end.

(** The [Metrics] object of this revision.  The average is a double,
    computed in binary64 as the code does.  The rate is an exact rational,
    and that is what the doubles give: the loop never lets the two counts
    it is computed from differ, a double divided by itself is 1, and from 1
    the code reaches 100, 1000 and 100 again without rounding. *)
Record RecomputedMetrics := {
  m_totalRequests : Z;
  m_successfulRequests : Z;
  m_failedRequests : Z;
  m_mempoolErrors : Z;
  successRate : Q;
  avgLatencyMs : float;
  p50LatencyMs : option Z;
  p95LatencyMs : option Z;
  p99LatencyMs : option Z;
  currentTps : Z;
  m_agents : gmap string AgentStatus;
  latencyHistogram : list Z
}.

(** The value of [useMemo]: the metrics of the buffer [events]. *)
Definition useMetrics (tps : Z) (events : list PaymentEvent) : RecomputedMetrics :=
  let t := foldl tally_event no_tally events in
  let sorted := merge_sort Z.le (t_latencies t) in
  let avg : float :=
    if (0 <? length sorted)%nat
    then PrimFloat.div (number_of_int (Metrics.sum sorted))
                       (number_of_Z (Z.of_nat (length sorted)))
    else 0%float in
  let rate : Q :=
    if 0 <? t_totalRequests t
    then (inject_Z (t_successfulRequests t) / inject_Z (t_totalRequests t) * 100)%Q
    else 0%Q in
  {| m_totalRequests := t_totalRequests t;
     m_successfulRequests := t_successfulRequests t;
     m_failedRequests := t_failedRequests t;
     m_mempoolErrors := t_mempoolErrors t;
     successRate := (inject_Z (Metrics.Math_round (rate * 10)) / 10)%Q;
     avgLatencyMs := Math_round_number avg;
     p50LatencyMs := Metrics.percentile sorted 50%float;
     p95LatencyMs := Metrics.percentile sorted 95%float;
     p99LatencyMs := Metrics.percentile sorted 99%float;
     currentTps := tps;
     m_agents := t_agents t;
     latencyHistogram := histogram (t_latencies t) |}.

(** An event that the loop counts under the given type: it names an
    agent. *)
Definition counted (ty : PaymentEventType) (event : PaymentEvent) : bool :=
  negb (String.eqb (agentId event) EmptyString) && bool_decide (type event = ty).

(** *** Sample data *)
Definition paymentFailed_at (t : Z) : PaymentEvent :=
  EventQueries.paymentFailed t "agent-1" "0xcc" "Insufficient payment".

End DashboardMemo.

(** * Properties *)

(** ** The replay guard *)
Section ReplayGuard.
Import JS Facilitator.

Implicit Types (m : gmap string Z) (h : string) (now ts : Z).

Lemma evict_fold_hit now l m h ts :
  (h, ts) ∈ l -> stale now ts = true ->
  foldr (evict_entry now) m l !! h = None.
Proof.
  induction l as [|e l IH]; intros Hin Hst.
  - by apply elem_of_nil in Hin.
  - cbn [foldr]. unfold evict_entry at 1.
    apply elem_of_cons in Hin as [<- | Hin].
    + cbn. rewrite Hst. apply lookup_delete_eq.
    + specialize (IH Hin Hst).
      destruct (stale now e.2); [|done].
      destruct (decide (e.1 = h)) as [-> | Hne].
      * apply lookup_delete_eq.
      * by rewrite lookup_delete_ne.
Qed.

Lemma evict_fold_miss now l m h :
  (forall ts, (h, ts) ∈ l -> stale now ts = false) ->
  foldr (evict_entry now) m l !! h = m !! h.
Proof.
  induction l as [|e l IH]; intros Hall; [done|].
  cbn [foldr]. unfold evict_entry at 1.
  assert (IH' : foldr (evict_entry now) m l !! h = m !! h).
  { apply IH. intros ts Hin. apply Hall. by right. }
  destruct (stale now e.2) eqn:Hst; [|done].
  rewrite lookup_delete_ne; [done|].
  intros Heq. destruct e as [k v]; cbn in *; subst k.
  rewrite Hall in Hst; [done | by left].
Qed.

(** What [evictStale] leaves of an entry. *)
Lemma evictStale_lookup now m h :
  evictStale now m !! h =
  match m !! h with
  | Some ts => if stale now ts then None else Some ts
  | None => None
  end.
Proof.
  unfold evictStale. destruct (m !! h) as [ts|] eqn:Hm.
  - destruct (stale now ts) eqn:Hst.
    + apply evict_fold_hit with ts; [|done]. by apply elem_of_map_to_list.
    + rewrite evict_fold_miss; [done|].
      intros ts' Hin%elem_of_map_to_list. congruence.
  - rewrite evict_fold_miss; [done|].
    intros ts' Hin%elem_of_map_to_list. congruence.
Qed.

Lemma evictStale_fresh now m h :
  m !! h = None -> evictStale now m !! h = None.
Proof. intros Hm. by rewrite evictStale_lookup, Hm. Qed.

Lemma evictStale_keeps now m h ts :
  m !! h = Some ts -> now - ts <= TX_HASH_TTL_MS ->
  evictStale now m !! h = Some ts.
Proof.
  intros Hm Hle. rewrite evictStale_lookup, Hm.
  unfold stale. destruct (Z.ltb_spec TX_HASH_TTL_MS (now - ts)); [lia|done].
Qed.

Lemma evictStale_drops now m h ts :
  m !! h = Some ts -> TX_HASH_TTL_MS < now - ts ->
  evictStale now m !! h = None.
Proof.
  intros Hm Hlt. rewrite evictStale_lookup, Hm.
  unfold stale. destruct (Z.ltb_spec TX_HASH_TTL_MS (now - ts)); [done|lia].
Qed.

(** The guard after [verify], whatever the answer. *)
Lemma verify_guard client st p req now :
  usedTxHashes (verify client st p req now).1 = evictStale now (usedTxHashes st).
Proof.
  unfold verify. destruct (String.eqb _ _); [done|].
  cbn. destruct (evictStale _ _ !! _); [done|].
  by destruct (verify_ledger _ _ _).
Qed.

Lemma verify_state client st p req now :
  (verify client st p req now).1 = with_used st (evictStale now (usedTxHashes st)).
Proof.
  unfold verify. destruct (String.eqb _ _); [done|].
  cbn. destruct (evictStale _ _ !! _); [done|].
  by destruct (verify_ledger _ _ _).
Qed.

(** A hash held by the guard after eviction is refused. *)
Lemma verify_used client st p req now ts :
  txHash p <> EmptyString ->
  evictStale now (usedTxHashes st) !! txHash p = Some ts ->
  (verify client st p req now).2 = invalid "Transaction already used".
Proof.
  intros Hne Hin. unfold verify.
  destruct (String.eqb_spec (txHash p) ""); [done|].
  cbn. by rewrite Hin.
Qed.

(** A hash absent from the guard is judged on the ledger alone. *)
Lemma verify_unused client st p req now :
  txHash p <> EmptyString ->
  evictStale now (usedTxHashes st) !! txHash p = None ->
  (verify client st p req now).2 =
  default (invalid "Verification failed") (verify_ledger client (txHash p) req).
Proof.
  intros Hne Hin. unfold verify.
  destruct (String.eqb_spec (txHash p) ""); [done|].
  cbn. rewrite Hin. by destruct (verify_ledger _ _ _).
Qed.

Lemma insufficient_msg_head got need :
  exists rest, insufficient_msg got need = String "I" rest.
Proof. unfold insufficient_msg. cbn. eauto. Qed.

(** No answer computed from the ledger reads "Transaction already used". *)
Lemma verify_ledger_not_used client h req r :
  verify_ledger client h req = Some r ->
  invalidReason r <> Some "Transaction already used"%string.
Proof.
  unfold verify_ledger. intros Hr.
  destruct (getTransactionReceipt client h) as [[receipt|]|];
    [| by injection Hr as <- | discriminate Hr].
  destruct (status receipt); [|by injection Hr as <-].
  destruct (getTransaction client h) as [[tx|]|];
    [| by injection Hr as <- | discriminate Hr].
  destruct (_ <? _)%nat; [by injection Hr as <-|].
  cbv zeta in Hr.
  generalize dependent (le_u128 (amountBytes (str_slice_from (2 + 72) (input tx)))).
  intros got Hr.
  destruct (BigInt_of_string (amount req)) as [need|]; [|discriminate Hr].
  destruct (got <? need); injection Hr as <-.
  - cbn [invalid invalidReason].
    destruct (insufficient_msg_head got need) as [rest ->]. discriminate.
  - cbn [valid invalidReason]. discriminate.
Qed.

Lemma settle_guard client st p req now :
  usedTxHashes (settle client st p req now).1 = <[txHash p := now]> (usedTxHashes st).
Proof. done. Qed.

End ReplayGuard.

(** ** Sequences of facilitator calls *)
Section FacilitatorRuns.
Import JS Facilitator.

Lemma held_after_settle client st p req T :
  held_since T (txHash p) (settle client st p req T).1.
Proof. exists T. rewrite settle_guard, lookup_insert_eq. split; [done|lia]. Qed.

Lemma held_verify client st p req now T h :
  held_since T h st -> now - T <= TX_HASH_TTL_MS ->
  held_since T h (verify client st p req now).1.
Proof.
  intros (ts & Hts & Hle) Hnow. exists ts. split; [|done].
  rewrite verify_guard. apply evictStale_keeps; [done|lia].
Qed.

Lemma held_settle client st p req now T h :
  held_since T h st -> (txHash p = h -> T <= now) ->
  held_since T h (settle client st p req now).1.
Proof.
  intros (ts & Hts & Hle) Hnow. unfold held_since. rewrite settle_guard.
  destruct (decide (txHash p = h)) as [Heq | Hne].
  - exists now. rewrite Heq, lookup_insert_eq. split; [done|]. by apply Hnow.
  - exists ts. by rewrite lookup_insert_ne.
Qed.

Lemma held_exec T h st c :
  held_since T h st -> T <= call_time c -> call_time c - T <= TX_HASH_TTL_MS ->
  held_since T h (exec st c).
Proof.
  intros Hh Hlo Hhi. destruct c; cbn [exec call_time] in *.
  - by apply held_verify.
  - apply held_settle; [done|]. by intros _.
Qed.

Lemma held_exec_all T h cs : forall st,
  held_since T h st ->
  Forall (fun c => T <= call_time c /\ call_time c - T <= TX_HASH_TTL_MS) cs ->
  held_since T h (exec_all st cs).
Proof.
  induction cs as [|c cs IH]; intros st Hh Hall; [done|].
  inversion Hall as [|? ? [Hlo Hhi] Hall']; subst.
  cbn. apply IH; [|done]. by apply held_exec.
Qed.

(** A held hash is refused as long as the stamp is within the TTL. *)
Lemma held_refused client st p req now T :
  txHash p <> EmptyString -> held_since T (txHash p) st ->
  now - T <= TX_HASH_TTL_MS ->
  (verify client st p req now).2 = invalid "Transaction already used".
Proof.
  intros Hne (ts & Hts & Hle) Hnow.
  apply verify_used with ts; [done|]. apply evictStale_keeps; [done|lia].
Qed.

End FacilitatorRuns.

(** ** Claims on the facilitator *)
Section FacilitatorClaims.
Import JS Facilitator.

(** C1 fails on the code.  [settle] makes no check of its own and
    [verify] reserves nothing: the guard is written by [settle] only.  When
    two requests that carry the same proof overlap, so that both are
    verified before either is settled, the second [verify] answers as the
    first did, and both [settle] calls report [success: true] for the one
    transaction hash, at whatever times the four calls run. *)
Theorem overlapping_requests_both_settle client st p req now1 now2 now3 now4 :
  isValid (verify client st p req now1).2 = true ->
  let a := verify client st p req now1 in
  let b := verify client a.1 p req now2 in
  let sa := settle client b.1 p req now3 in
  let sb := settle client sa.1 p req now4 in
  isValid b.2 = true
  /\ success sa.2 = true /\ transaction sa.2 = txHash p
  /\ success sb.2 = true /\ transaction sb.2 = txHash p.
Proof.
  intros Hval. cbv zeta.
  assert (Hne : txHash p <> EmptyString).
  { intros He. unfold verify in Hval. rewrite He in Hval. discriminate Hval. }
  assert (Habs : evictStale now1 (usedTxHashes st) !! txHash p = None).
  { destruct (evictStale now1 (usedTxHashes st) !! txHash p) as [ts|] eqn:Hl;
      [|reflexivity].
    rewrite (verify_used _ _ _ _ _ ts Hne Hl) in Hval. discriminate Hval. }
  assert (Habs2 : evictStale now2 (usedTxHashes (verify client st p req now1).1)
                    !! txHash p = None).
  { apply evictStale_fresh. now rewrite verify_guard. }
  split.
  - rewrite (verify_unused client (verify client st p req now1).1 _ _ _ Hne Habs2).
    now rewrite <- (verify_unused client st _ _ _ Hne Habs).
  - repeat split; reflexivity.
Qed.

(** C2: once [settle] has stored the hash of a proof at time [T], a
    [verify] of that proof at a time [now] less than one TTL after [T]
    answers "Transaction already used", whatever calls of [verify] and
    [settle] the facilitator served between [T] and [now]. *)
Theorem settled_hash_is_refused client st p req T cs client' req' now :
  txHash p <> EmptyString ->
  Forall (fun c => T <= call_time c <= now) cs ->
  now - T < TX_HASH_TTL_MS ->
  (verify client' (exec_all (settle client st p req T).1 cs) p req' now).2
  = invalid "Transaction already used".
Proof.
  intros Hne Hcs Hnow.
  apply held_refused with T; [done| |lia].
  apply held_exec_all; [apply held_after_settle|].
  eapply Forall_impl; [exact Hcs|]. cbn. intros c [? ?]. lia.
Qed.

(** C3: [verify] changes the guard by eviction only, whatever it answers:
    an entry is either kept as it was or, when it is stale, dropped, and
    a hash that was absent stays absent.  So after a [verify] that
    answered valid, the same proof verifies with the same answer again at
    any later time and [settle] then reports success. *)
Theorem verify_only_evicts client st p req now :
  (verify client st p req now).1
    = with_used st (evictStale now (usedTxHashes st))
  /\ (forall h,
       usedTxHashes (verify client st p req now).1 !! h = usedTxHashes st !! h
       \/ usedTxHashes (verify client st p req now).1 !! h = None)
  /\ (isValid (verify client st p req now).2 = true ->
      usedTxHashes (verify client st p req now).1 !! txHash p = None
      /\ forall now2 now3,
          let retry := verify client (verify client st p req now).1 p req now2 in
          retry.2 = (verify client st p req now).2
          /\ usedTxHashes retry.1 !! txHash p = None
          /\ success (settle client retry.1 p req now3).2 = true).
Proof.
  split; [apply verify_state|]. split.
  - intros h. rewrite verify_guard, evictStale_lookup.
    destruct (usedTxHashes st !! h) as [ts|]; [|by left].
    destruct (stale now ts); [by right | by left].
  - intros Hval.
    assert (Hne : txHash p <> EmptyString).
    { intros He. unfold verify in Hval. rewrite He in Hval. done. }
    assert (Habs : evictStale now (usedTxHashes st) !! txHash p = None).
    { destruct (evictStale now (usedTxHashes st) !! txHash p) as [ts|] eqn:Hl; [|done].
      rewrite (verify_used _ _ _ _ _ ts) in Hval; done. }
    split; [by rewrite verify_guard|].
    intros now2 now3. cbn zeta.
    assert (Habs2 : evictStale now2 (usedTxHashes (verify client st p req now).1)
                      !! txHash p = None).
    { apply evictStale_fresh. by rewrite verify_guard. }
    split; [|split].
    + rewrite (verify_unused client (verify client st p req now).1) by done.
      by rewrite (verify_unused client st).
    + by rewrite verify_guard.
    + done.
Qed.

(** C6: with the hash of a proof stored in the guard at time [T], a
    [verify] later than [T] plus the TTL does not answer "Transaction
    already used" and finds the entry evicted, while a [verify] at [T] plus
    the TTL minus any positive [eps] answers "Transaction already used". *)
Theorem ttl_boundary client st p req T :
  usedTxHashes st !! txHash p = Some T ->
  (forall now, T + TX_HASH_TTL_MS < now ->
     invalidReason (verify client st p req now).2
       <> Some "Transaction already used"%string
     /\ usedTxHashes (verify client st p req now).1 !! txHash p = None)
  /\ (txHash p <> EmptyString ->
      forall eps, 0 < eps ->
        (verify client st p req (T + TX_HASH_TTL_MS - eps)).2
        = invalid "Transaction already used").
Proof.
  intros HT. split.
  - intros now Hnow.
    assert (Hgone : evictStale now (usedTxHashes st) !! txHash p = None).
    { apply evictStale_drops with T; [done|lia]. }
    split; [|by rewrite verify_guard].
    destruct (decide (txHash p = EmptyString)) as [He|Hne].
    + unfold verify. rewrite He. cbn. discriminate.
    + rewrite verify_unused by done.
      destruct (verify_ledger client (txHash p) req) as [r|] eqn:Hr.
      * cbn [default]. by apply verify_ledger_not_used in Hr.
      * cbn. discriminate.
  - intros Hne eps Heps.
    apply held_refused with T; [done| |lia].
    exists T. split; [done|lia].
Qed.

End FacilitatorClaims.

(** ** Concrete runs of the facilitator *)
Section FacilitatorWitnesses.
Import JS Facilitator.

(** Two overlapping requests with the proof [0xcc]: verified at 1000 and
    1001, settled at 1002 and 1003, both with [success: true]. *)
Lemma overlapping_requests_both_settle_witness :
  let a := verify paying_ledger fresh proof_c price_100 1000 in
  let b := verify paying_ledger a.1 proof_c price_100 1001 in
  let sa := settle paying_ledger b.1 proof_c price_100 1002 in
  let sb := settle paying_ledger sa.1 proof_c price_100 1003 in
  isValid a.2 = true /\ isValid b.2 = true
  /\ success sa.2 = true /\ transaction sa.2 = "0xcc"%string
  /\ success sb.2 = true /\ transaction sb.2 = "0xcc"%string.
Proof.
  assert (H : isValid (verify paying_ledger fresh proof_c price_100 1000).2 = true)
    by (vm_compute; reflexivity).
  split; [exact H|].
  exact (overlapping_requests_both_settle paying_ledger fresh proof_c price_100
           1000 1001 1002 1003 H).
Defined.

(** A proof settled at time 1000 is refused one millisecond before the
    TTL has elapsed, after the facilitator served another proof and one more
    [verify] of the same one. *)
Lemma settled_hash_is_refused_witness :
  let cs := [CallVerify paying_ledger proof_d price_100 1500;
             CallSettle paying_ledger proof_d price_100 1600;
             CallVerify paying_ledger proof_c price_100 2000] in
  (verify paying_ledger (exec_all (settle paying_ledger fresh proof_c price_100 1000).1 cs)
     proof_c price_100 3600999).2
  = invalid "Transaction already used".
Proof.
  intros cs.
  apply (settled_hash_is_refused paying_ledger fresh proof_c price_100 1000 cs
           paying_ledger price_100 3600999).
  - discriminate.
  - repeat constructor; vm_compute; discriminate.
  - vm_compute. reflexivity.
Defined.

(** A proof that verified as valid on the empty guard settles after a
    second [verify]. *)
Lemma verify_only_evicts_witness :
  isValid (verify paying_ledger fresh proof_c price_100 5).2 = true
  /\ forall now2 now3,
      success (settle paying_ledger
                 (verify paying_ledger
                    (verify paying_ledger fresh proof_c price_100 5).1
                    proof_c price_100 now2).1
                 proof_c price_100 now3).2 = true.
Proof.
  assert (H : isValid (verify paying_ledger fresh proof_c price_100 5).2 = true).
  { vm_compute. reflexivity. }
  split; [exact H|].
  destruct (verify_only_evicts paying_ledger fresh proof_c price_100 5)
    as (_ & _ & Hretry).
  destruct (Hretry H) as [_ Hagain].
  intros now2 now3. exact (proj2 (proj2 (Hagain now2 now3))).
Defined.

(** Stored at 1000: evicted at 3601001, still refused at 3600999. *)
Lemma ttl_boundary_witness :
  let st := (settle paying_ledger fresh proof_c price_100 1000).1 in
  invalidReason (verify paying_ledger st proof_c price_100 3601001).2
    <> Some "Transaction already used"%string
  /\ (verify paying_ledger st proof_c price_100 (1000 + TX_HASH_TTL_MS - 1)).2
     = invalid "Transaction already used".
Proof.
  intros st.
  assert (H : usedTxHashes st !! txHash proof_c = Some 1000).
  { vm_compute. reflexivity. }
  destruct (ttl_boundary paying_ledger st proof_c price_100 1000 H) as [Hlate Hearly].
  split.
  - apply (Hlate 3601001). vm_compute. reflexivity.
  - apply Hearly; [discriminate | lia].
Defined.

End FacilitatorWitnesses.

(** ** The event log *)
Section EventLog.
Import JS Events.

Context {A : Type}.
Implicit Types (l : list A) (k : nat).

Lemma slice_last_length k l : length (slice_last k l) = Nat.min k (length l).
Proof. unfold slice_last. rewrite length_drop. lia. Qed.

Lemma slice_last_suffix k l : slice_last k l `suffix_of` l.
Proof. apply suffix_drop. Qed.

End EventLog.

Section EventEmitter.
Import JS Events.

Lemma append_log_short log event :
  Z.of_nat (length log) < maxLogSize -> append_log log event = log ++ [event].
Proof.
  intros Hlt. unfold append_log. rewrite length_app. cbn [length].
  destruct (Z.ltb_spec maxLogSize (Z.of_nat (length log + 1))); [lia|done].
Qed.

Lemma append_log_full log event :
  maxLogSize <= Z.of_nat (length log) ->
  append_log log event = slice_last 500 (log ++ [event]).
Proof.
  intros Hge. unfold append_log. rewrite length_app. cbn [length].
  destruct (Z.ltb_spec maxLogSize (Z.of_nat (length log + 1))); [done|lia].
Qed.

Lemma append_log_bound log event :
  Z.of_nat (length log) <= maxLogSize ->
  Z.of_nat (length (append_log log event)) <= maxLogSize.
Proof.
  intros Hle. unfold maxLogSize in *.
  destruct (decide (Z.of_nat (length log) < 1000)) as [Hlt|Hge].
  - rewrite append_log_short by done. rewrite length_app. cbn [length]. lia.
  - rewrite append_log_full by (unfold maxLogSize; lia).
    rewrite slice_last_length. lia.
Qed.

Lemma emit_log throws st event :
  eventLog (emit throws st event).1 = append_log (eventLog st) event.
Proof. done. Qed.

Lemma addConnection_log st ws : eventLog (addConnection st ws).1 = eventLog st.
Proof. unfold addConnection. by destruct (_ <? _)%nat. Qed.

(** The bound is an invariant of the emitter. *)
Lemma reachable_log_bound st :
  reachable st -> Z.of_nat (length (eventLog st)) <= maxLogSize.
Proof.
  induction 1 as [|st ws _ IH|st ws _ IH|st throws event _ IH].
  - done.
  - by rewrite addConnection_log.
  - done.
  - rewrite emit_log. by apply append_log_bound.
Qed.

(** C7: in every state of the emitter the log holds at most 1000 events,
    also right after [emit].  [emit] appends the event; when that makes
    1001 entries the log is cut to its newest 500 in one step.  Either way
    the new log is a final segment of the old log followed by the event, so
    the entries kept are the newest ones in their order. *)
Theorem event_log_bounded st throws event :
  reachable st ->
  let log := eventLog st in
  let log' := eventLog (emit throws st event).1 in
  Z.of_nat (length log') <= maxLogSize
  /\ (Z.of_nat (length log) < maxLogSize -> log' = log ++ [event])
  /\ (Z.of_nat (length log) = maxLogSize ->
      log' = slice_last 500 (log ++ [event]) /\ length log' = 500%nat)
  /\ log' `suffix_of` (log ++ [event]).
Proof.
  intros Hreach log log'. subst log log'. rewrite emit_log.
  pose proof (reachable_log_bound st Hreach) as Hbound.
  split; [by apply append_log_bound|]. split; [apply append_log_short|]. split.
  - intros Hfull. rewrite append_log_full by lia. split; [done|].
    rewrite slice_last_length, length_app. cbn [length].
    unfold maxLogSize in Hfull. lia.
  - destruct (decide (Z.of_nat (length (eventLog st)) < maxLogSize)) as [Hlt|Hge].
    + by rewrite append_log_short.
    + rewrite append_log_full by lia. apply slice_last_suffix.
Qed.

Lemma reachable_emit_all events : forall st,
  reachable st -> reachable (emit_all st events).
Proof.
  induction events as [|e events IH]; intros st Hst; [done|].
  cbn. apply IH. by constructor.
Qed.

(** With 1000 events in the log, the next one leaves the newest 500:
    those stamped 501 to 1000. *)
Lemma event_log_bounded_witness :
  let st := emit_all init (served_run 1000) in
  length (eventLog st) = 1000%nat
  /\ eventLog (emit (fun _ => false) st (served_at 1000)).1
     = map (fun i => served_at (Z.of_nat i)) (seq 501 500).
Proof.
  intros st.
  assert (Hlen : length (eventLog st) = 1000%nat) by (vm_compute; reflexivity).
  split; [exact Hlen|].
  destruct (event_log_bounded st (fun _ => false) (served_at 1000)
              (reachable_emit_all (served_run 1000) init reach_init))
    as (_ & _ & Hfull & _).
  destruct Hfull as [-> _]; [by rewrite Hlen|].
  vm_compute. reflexivity.
Defined.

(** C9: the message sent to a new connection is a [History] of the last
    100 events of the log, all of the log when it holds fewer, in log
    order; nothing is sent when the log is empty. *)
Theorem backlog_snapshot st ws :
  (eventLog st = [] -> (addConnection st ws).2 = None)
  /\ (eventLog st <> [] ->
      exists events,
        (addConnection st ws).2 = Some (History events)
        /\ events = slice_last 100 (eventLog st)
        /\ length events = Nat.min 100 (length (eventLog st))
        /\ events `suffix_of` eventLog st).
Proof.
  unfold addConnection. split.
  - intros ->. done.
  - intros Hne.
    assert (Hpos : (0 < length (eventLog st))%nat).
    { destruct (eventLog st); [done | cbn; lia]. }
    destruct (Nat.ltb_spec 0 (length (eventLog st))); [|lia].
    eexists. split; [done|]. split; [done|].
    split; [apply slice_last_length | apply slice_last_suffix].
Qed.

(** A log of 150 events gives a backlog of 100, the events stamped 50 to
    149. *)
Lemma backlog_snapshot_witness :
  let st := emit_all init (served_run 150) in
  eventLog st <> []
  /\ (addConnection st 7%nat).2
     = Some (History (map (fun i => served_at (Z.of_nat i)) (seq 50 100))).
Proof.
  intros st.
  assert (Hne : eventLog st <> []) by (vm_compute; discriminate).
  split; [exact Hne|].
  destruct (backlog_snapshot st 7%nat) as [_ Hsome].
  destruct (Hsome Hne) as (events & -> & -> & _).
  vm_compute. reflexivity.
Defined.

End EventEmitter.

(** ** The metrics collector *)
Section Collector.
Import JS Metrics.

(** [Math.round] of an integer is the integer. *)
Lemma Math_round_Z (z : Z) (q : Q) : (q == inject_Z z)%Q -> Math_round q = z.
Proof.
  intros Hq. unfold Math_round.
  rewrite (Qfloor_comp _ (inject_Z (2 * z + 1) / inject_Z 2)%Q).
  - rewrite <- Zdiv_Qdiv. symmetry. apply Z.div_unique with 1; lia.
  - rewrite Hq. rewrite !inject_Z_plus, !inject_Z_mult. field.
Qed.

(** What is reported for a window that holds [n] timestamps. *)
Lemma tps_of_count (n : Z) :
  (inject_Z (Math_round (inject_Z n / (inject_Z TPS_WINDOW_MS / 1000) * 10)) / 10
   == inject_Z n)%Q.
Proof.
  rewrite (Math_round_Z (n * 10)).
  - rewrite inject_Z_mult. field.
  - rewrite inject_Z_mult. unfold TPS_WINDOW_MS. field.
Qed.

Lemma currentTps_count st now :
  Qeq (currentTps (getPoolMetrics st now).2)
      (inject_Z (Z.of_nat (length (filter (fun t => now - TPS_WINDOW_MS < t)
                                     (recentRequests st))))).
Proof. unfold getPoolMetrics. cbn [snd currentTps]. apply tps_of_count. Qed.

Lemma recordRequest_agents st result id :
  is_Some (agentMetrics (recordRequest st result) !! id)
  <-> is_Some (agentMetrics st !! id).
Proof.
  unfold recordRequest.
  destruct (agentMetrics st !! agentId result) as [m|] eqn:Hm; [|done].
  cbn [agentMetrics].
  destruct (decide (agentId result = id)) as [<-|Hne].
  - rewrite lookup_insert_eq, Hm. split; eauto.
  - by rewrite lookup_insert_ne.
Qed.

Lemma recordRequest_recent st result :
  recentRequests (recordRequest st result)
  = recentRequests st
    ++ (if decide (known st result) then [timestamp result] else []).
Proof.
  unfold recordRequest, known.
  destruct (agentMetrics st !! agentId result) as [m|] eqn:Hm.
  - cbn [recentRequests]. destruct (decide _) as [|Hn]; [done|].
    destruct Hn. eauto.
  - destruct (decide _) as [[? [=]]|]. by rewrite app_nil_r.
Qed.

Lemma apply_op_agents st o id :
  is_Some (agentMetrics (apply_op st o) !! id) <-> is_Some (agentMetrics st !! id).
Proof. destruct o; [apply recordRequest_agents | done]. Qed.

Lemma known_apply_op st o (w : Z) (results : list RequestResult) :
  filter (fun r => known (apply_op st o) r /\ w < timestamp r) results
  = filter (fun r => known st r /\ w < timestamp r) results.
Proof.
  apply list_filter_iff. intros x. unfold known. by rewrite apply_op_agents.
Qed.

(** The part of the window buffer that is later than [now - 1000 ms], after
    a run in which the metrics were never read at a time after [now]: what
    was there before, then one timestamp for each recorded result of a
    registered agent, successful or not. *)
Lemma window_after_ops now ops : forall st,
  polls_until now ops ->
  filter (fun t => now - TPS_WINDOW_MS < t) (recentRequests (run_ops st ops))
  = filter (fun t => now - TPS_WINDOW_MS < t) (recentRequests st)
    ++ (timestamp <$> filter (fun r => known st r /\ now - TPS_WINDOW_MS < timestamp r)
                        (recorded ops)).
Proof.
  induction ops as [|o ops IH]; intros st Hpolls.
  - cbn. by rewrite app_nil_r.
  - inversion Hpolls as [|? ? Ho Hpolls']; subst.
    cbn [run_ops foldl]. unfold run_ops in IH. rewrite (IH _ Hpolls').
    rewrite known_apply_op.
    destruct o as [r | t]; cbn [apply_op].
    + change (recorded (OpRecord r :: ops)) with (r :: recorded ops).
      rewrite recordRequest_recent, filter_app, <- app_assoc. f_equal.
      destruct (decide (known st r)) as [Hk|Hk].
      * destruct (decide (now - TPS_WINDOW_MS < timestamp r)) as [Hw|Hw].
        -- by rewrite !filter_cons_True by done.
        -- rewrite !filter_cons_False by tauto. done.
      * rewrite filter_nil, (filter_cons_False (fun r => known st r /\ _)) by tauto.
        done.
    + change (recorded (OpPoll t :: ops)) with (recorded ops).
      f_equal. unfold getPoolMetrics. cbn [fst recentRequests].
      rewrite list_filter_filter. apply list_filter_iff.
      intros x. unfold TPS_WINDOW_MS. lia.
Qed.

End Collector.

(** ** Claims on the metrics collector *)
Section CollectorClaims.
Import JS Metrics.

(** C4, as stated, fails: a failed request of a registered agent is
    counted.  One failure stamped 500 and one success stamped 600 give a
    throughput of 2 at time 1000, while a single successful request lies in
    the window. *)
Lemma failed_request_counts_in_tps :
  let results := [result_at false "agent-1" 500; result_at true "agent-1" 600] in
  ~ Qeq (currentTps (getPoolMetrics (run_ops one_agent (OpRecord <$> results)) 1000).2)
        (inject_Z (Z.of_nat (length
           (filter (fun r => success r = true /\ 1000 - TPS_WINDOW_MS < timestamp r)
              results)))).
Proof.
  intros results. rewrite currentTps_count.
  vm_compute. discriminate.
Qed.

(** C4, amended: [currentTps] computed at time [now] is the number of
    requests recorded since [start], successful or failed, that came from a
    registered agent and whose timestamp is later than [now - 1000 ms].
    Reading the metrics in between, at times up to [now], does not change
    the figure. *)
Theorem current_tps_counts_recorded st0 t0 ops now :
  polls_until now ops ->
  Qeq (currentTps (getPoolMetrics (run_ops (start st0 t0) ops) now).2)
      (inject_Z (Z.of_nat (length
         (filter (fun r => known st0 r /\ now - TPS_WINDOW_MS < timestamp r)
            (recorded ops))))).
Proof.
  intros Hpolls.
  rewrite currentTps_count, window_after_ops by done.
  cbn [start recentRequests]. rewrite filter_nil, app_nil_l, length_fmap. done.
Qed.

(** A failure, a reading of the metrics, a success and a result of an
    unknown agent: two requests count at time 1000. *)
Lemma current_tps_counts_recorded_witness :
  let ops := [OpRecord (result_at false "agent-1" 500); OpPoll 700;
              OpRecord (result_at true "agent-1" 800);
              OpRecord (result_at true "agent-2" 900)] in
  Qeq (currentTps (getPoolMetrics
                     (run_ops (start (registerAgent init "agent-1" "0x01") 0) ops)
                     1000).2)
      (inject_Z 2).
Proof.
  intros ops.
  rewrite (current_tps_counts_recorded (registerAgent init "agent-1" "0x01") 0 ops 1000).
  - vm_compute. reflexivity.
  - repeat constructor; vm_compute; discriminate.
Defined.

(** C5, as stated, fails twice.  On its example: the median of the seven
    samples is 40, the fourth value in ascending order, not 30.  And not for
    every percentile: for the samples 1 to 100 and [p = 7] the product of
    doubles [(7 / 100) * 100] exceeds 7, so the value reported is that at
    index 7 and not at [ceil(7 / 100 * 100) - 1 = 6]. *)
Lemma percentile_example_and_rounding :
  ~ (percentile sample_latencies 50 = Some 30
     /\ percentile sample_latencies 95 = Some 200)
  /\ ~ (percentile hundred_samples 7
        = hundred_samples !! Z.to_nat (Z.max 0 (Z.min (100 - 1) (ceil_div (7 * 100) 100 - 1)))).
Proof.
  split.
  - intros [H _]. vm_compute in H. discriminate H.
  - intros H. vm_compute in H. discriminate H.
Qed.

Lemma ceil_div_le_length (p n : Z) : p <= 100 -> 0 <= n -> ceil_div (p * n) 100 <= n.
Proof.
  intros Hp Hn. unfold ceil_div.
  assert (- n <= (- (p * n)) / 100); [|lia].
  apply Z.div_le_lower_bound; nia.
Qed.

Lemma all_from_spec f k : forall n i,
  all_from f k n = true -> n <= i < n + Z.of_nat k -> f i = true.
Proof.
  induction k as [|k IH]; intros n i Hall Hi; [lia|].
  cbn [all_from] in Hall. apply andb_prop in Hall as [Hn Hrest].
  destruct (decide (i = n)) as [->|Hne]; [done|].
  apply (IH (n + 1)); [done|lia].
Qed.

(** Checked by evaluation: for the three percentiles the collector reports
    and every sample count up to [MAX_SAMPLES], the doubles give the exact
    nearest rank. *)
Lemma ranks_checked :
  all_from (rank_exact 50) (Z.to_nat MAX_SAMPLES) 1
  && all_from (rank_exact 95) (Z.to_nat MAX_SAMPLES) 1
  && all_from (rank_exact 99) (Z.to_nat MAX_SAMPLES) 1 = true.
Proof. vm_compute. reflexivity. Qed.

Lemma rank_exact_reported (p n : Z) :
  p ∈ [50; 95; 99] -> 1 <= n <= MAX_SAMPLES -> rank_exact p n = true.
Proof.
  intros Hp Hn.
  pose proof ranks_checked as H.
  apply andb_prop in H as [H H99]. apply andb_prop in H as [H50 H95].
  assert (Hrange : 1 <= n < 1 + Z.of_nat (Z.to_nat MAX_SAMPLES)).
  { unfold MAX_SAMPLES in *. lia. }
  apply elem_of_cons in Hp as [-> | Hp];
    [exact (all_from_spec _ _ _ _ H50 Hrange)|].
  apply elem_of_cons in Hp as [-> | Hp];
    [exact (all_from_spec _ _ _ _ H95 Hrange)|].
  apply elem_of_cons in Hp as [-> | Hp];
    [exact (all_from_spec _ _ _ _ H99 Hrange)|].
  apply elem_of_nil in Hp. destruct Hp.
Qed.

(** The collector never keeps more than [MAX_SAMPLES] latencies. *)
Lemma recordRequest_latencies_bound st result :
  Z.of_nat (length (latencies st)) <= MAX_SAMPLES ->
  Z.of_nat (length (latencies (recordRequest st result))) <= MAX_SAMPLES.
Proof.
  intros Hle. unfold recordRequest, MAX_SAMPLES in *.
  destruct (agentMetrics st !! agentId result); [|done].
  cbn [latencies]. rewrite length_app. cbn [length].
  destruct (Z.ltb_spec 10000 (Z.of_nat (length (latencies st) + 1))).
  - rewrite slice_last_length. lia.
  - rewrite ?length_app. cbn [length]. lia.
Qed.

(** C5, amended: for a non-empty list of at most 10000 samples (what the
    collector keeps) and [p] one of the percentiles 50, 95 and 99 that are
    reported, the value is the element at index [ceil(p/100 * length) - 1]
    clamped to [0, length - 1]; for the samples 10, 20, 30, 40, 50, 100, 200
    the 50th percentile is 40 and the 95th is 200. *)
Theorem percentile_nearest_rank :
  (forall (sorted : list Z) (p : Z),
     sorted <> [] -> Z.of_nat (length sorted) <= MAX_SAMPLES -> p ∈ [50; 95; 99] ->
     let n := Z.of_nat (length sorted) in
     let idx := Z.max 0 (Z.min (n - 1) (ceil_div (p * n) 100 - 1)) in
     percentile sorted (number_of_Z p) = sorted !! Z.to_nat idx
     /\ is_Some (percentile sorted (number_of_Z p)))
  /\ percentile sample_latencies 50%float = Some 40
  /\ percentile sample_latencies 95%float = Some 200.
Proof.
  split; [|by vm_compute].
  intros sorted p Hne Hmax Hp n idx.
  assert (Hn : 0 < n).
  { subst n. destruct sorted; [done | cbn [length]; lia]. }
  assert (Hp100 : p <= 100).
  { repeat (apply elem_of_cons in Hp as [-> | Hp]); try lia. by apply elem_of_nil in Hp. }
  pose proof (ceil_div_le_length p n Hp100 ltac:(lia)) as Hc.
  assert (Hidx : idx = Z.max 0 (ceil_div (p * n) 100 - 1)) by (subst idx; lia).
  pose proof (rank_exact_reported p n Hp ltac:(lia)) as Hrank.
  unfold rank_exact in Hrank. unfold percentile.
  destruct (Nat.eqb_spec (length sorted) 0); [lia|].
  fold n.
  destruct (Math_ceil _) as [| |c]; try discriminate Hrank.
  apply Z.eqb_eq in Hrank as ->. cbn zeta. rewrite <- Hidx.
  split; [done|]. apply lookup_lt_is_Some. lia.
Qed.

(** Three samples: the median is the second. *)
Lemma percentile_nearest_rank_witness :
  percentile [3; 5; 8] 50%float = Some 5.
Proof.
  destruct percentile_nearest_rank as [Hgen _].
  destruct (Hgen [3; 5; 8] 50) as [Heq _].
  - discriminate.
  - vm_compute. discriminate.
  - by left.
  - change (number_of_Z 50) with 50%float in Heq. rewrite Heq.
    vm_compute. reflexivity.
Defined.

(** C10: a result whose agent was never registered changes nothing in
    the collector, so every figure computed afterwards is the one computed
    without it. *)
Theorem unknown_agent_ignored st result :
  agentMetrics st !! agentId result = None ->
  recordRequest st result = st
  /\ forall now, getPoolMetrics (recordRequest st result) now = getPoolMetrics st now.
Proof.
  intros Hnone.
  assert (Heq : recordRequest st result = st).
  { unfold recordRequest. by rewrite Hnone. }
  split; [done|]. intros now. by rewrite Heq.
Qed.

(** A result of [agent-2] on a collector that knows [agent-1] only. *)
Lemma unknown_agent_ignored_witness :
  recordRequest one_agent (result_at true "agent-2" 700) = one_agent.
Proof.
  apply (unknown_agent_ignored one_agent (result_at true "agent-2" 700)).
  vm_compute. reflexivity.
Defined.

End CollectorClaims.

(** ** The nonce of an agent *)
Section AgentNonce.
Import JS Agent.
Variable keccak256 : string -> string.

Lemma claimed_app os1 os2 : claimed (os1 ++ os2) = claimed os1 ++ claimed os2.
Proof. unfold claimed. apply omap_app. Qed.

(** Reading the counter and incrementing it happen in one step of one
    worker: whenever a step claims [n], the counter is [n + 1] when the
    worker is suspended next, and nothing else was claimed in that step. *)
Lemma claim_is_one_step st w e st' os w' n :
  step keccak256 st w e = Some (st', os) ->
  Claimed w' n ∈ os ->
  os = [Claimed w n] /\ nextNonce st' = Some (n + 1)
  /\ workers st' !! w = (fun _ => AtSend n) <$> workers st !! w.
Proof.
  unfold step. intros Hstep Hin.
  destruct (workers st !! w) as [[| |m| |h]|] eqn:Hw; destruct e; try discriminate;
    try (injection Hstep as <- <-; apply list_elem_of_singleton in Hin; discriminate).
  - destruct (nextNonce st) as [m|]; injection Hstep as <- <-.
    + apply list_elem_of_singleton in Hin. injection Hin as -> ->.
      cbn. rewrite list_lookup_insert_eq; [done|]. by eapply lookup_lt_Some.
    + by apply elem_of_nil in Hin.
  - injection Hstep as <- <-.
    apply list_elem_of_singleton in Hin. injection Hin as -> ->.
    cbn. rewrite list_lookup_insert_eq; [done|]. by eapply lookup_lt_Some.
  - injection Hstep as <- <-. by apply elem_of_nil in Hin.
  - unfold on_send_error in Hstep.
    repeat match type of Hstep with
           | context [if ?b then _ else _] => destruct b
           | context [match ?b with Some _ => _ | None => _ end] => destruct b
           end;
      injection Hstep as <- <-;
      first [by apply elem_of_nil in Hin
            | apply list_elem_of_singleton in Hin; discriminate].
Qed.

(** Without a rejected send, a step of an agent whose counter is set and
    in which no worker waits for a count claims at most the counter and
    keeps both properties. *)
Lemma step_counts st w e st' os n :
  nextNonce st = Some n -> no_count_pending st ->
  (forall msg, e <> SendRejected msg) ->
  step keccak256 st w e = Some (st', os) ->
  no_count_pending st'
  /\ ((claimed os = [] /\ nextNonce st' = Some n)
      \/ (claimed os = [n] /\ nextNonce st' = Some (n + 1))).
Proof.
  unfold step, no_count_pending. intros Hn Hpend Hrej Hstep.
  destruct (workers st !! w) as [[| |m| |h]|] eqn:Hw; [| | | | |done].
  - destruct e; try discriminate. rewrite Hn in Hstep. injection Hstep as <- <-.
    split; [|by right]. cbn. apply Forall_insert; [done|]. done.
  - apply (Forall_lookup_1 _ _ _ _ Hpend) in Hw. by destruct Hw.
  - destruct e; try discriminate.
    + injection Hstep as <- <-. split; [|by left].
      cbn. apply Forall_insert; [done|]. done.
    + by destruct (Hrej msg).
  - apply (Forall_lookup_1 _ _ _ _ Hpend) in Hw. by destruct Hw.
  - destruct e; try discriminate; injection Hstep as <- <-;
      (split; [|by left]); cbn; apply Forall_insert; done.
Qed.

(** Once the counter is set and as long as no send is rejected, the
    nonces claimed by the workers, however they interleave, are the counter
    and its successors, in order. *)
Lemma claimed_contiguous sched : forall st n st' os,
  nextNonce st = Some n -> no_count_pending st ->
  no_send_error sched ->
  run keccak256 st sched = Some (st', os) ->
  claimed os = seqZ n (Z.of_nat (length (claimed os)))
  /\ nextNonce st' = Some (n + Z.of_nat (length (claimed os))).
Proof.
  induction sched as [|[w e] sched IH]; intros st n st' os Hn Hpend Hok Hrun.
  - injection Hrun as <- <-. cbn. rewrite Z.add_0_r. done.
  - cbn [run] in Hrun.
    destruct (step keccak256 st w e) as [[st1 o1]|] eqn:Hstep; [|done].
    destruct (run keccak256 st1 sched) as [[st2 o2]|] eqn:Hrest; [|done].
    injection Hrun as <- <-.
    inversion Hok as [|? ? He Hok']; subst.
    assert (Hrej : forall msg, e <> SendRejected msg).
    { intros msg ->. exact He. }
    destruct (step_counts st w e st1 o1 n Hn Hpend Hrej Hstep)
      as [Hpend1 [[Hc Hn1] | [Hc Hn1]]];
      destruct (IH st1 _ st2 o2 Hn1 Hpend1 Hok' Hrest) as [IHc IHn];
      rewrite claimed_app, Hc.
    + done.
    + cbn [app length]. split.
      * rewrite Nat2Z.inj_succ, seqZ_cons by lia. f_equal.
        rewrite Z.pred_succ. exact IHc.
      * rewrite IHn. f_equal. lia.
Qed.

End AgentNonce.

(** ** Claim on the nonce *)
Section AgentClaims.
Import JS Agent.
Variable keccak256 : string -> string.

(** Counter already set: three payments by two workers use 7, 8 and 9. *)
Lemma three_payments_contiguous :
  exists st os,
    run keccak256 counting_from_7 three_payments = Some (st, os)
    /\ claimed os = [7; 8; 9] /\ nextNonce st = Some 10.
Proof. by eexists _, _. Qed.

(** C8 on the code: a fresh agent has no counter yet, and a worker that
    finds it unset is suspended on the transaction count before it claims.
    Two workers that both call [submitPayment] before the first count
    arrives each store the count they receive and claim it: with no send
    rejected, hence no resync and no rollback, both payments are sent with
    nonce 7. *)
Theorem racing_workers_claim_same_nonce :
  nextNonce init = None
  /\ no_send_error racing_start
  /\ exists st os,
      run keccak256 init racing_start = Some (st, os)
      /\ os = [Claimed 0 7; Claimed 1 7]
      /\ claimed os = [7; 7]
      /\ ~ NoDup (claimed os)
      /\ nextNonce st = Some 8.
Proof.
  split; [done|]. split; [by repeat constructor|].
  eexists _, _. split; [reflexivity|]. split; [done|]. split; [done|].
  split; [|done].
  intros Hnd. apply NoDup_cons in Hnd as [Hnotin _].
  apply Hnotin. by left.
Qed.

End AgentClaims.

(** ** Calldata of the simulator read by the facilitator *)
Section Calldata.
Import JS Facilitator EvolveUtils.

Lemma le_u128_cons b bytes :
  le_u128 (b :: bytes) = Z.lor (Z.shiftl (le_u128 bytes) 8) b.
Proof. reflexivity. Qed.

Lemma le_u128_le_bytes n : forall v,
  le_u128 (le_bytes n v) = v mod 2 ^ (8 * Z.of_nat n).
Proof.
  induction n as [|n IH]; intros v.
  - cbn. now rewrite Z.mod_1_r.
  - cbn [le_bytes]. rewrite le_u128_cons, IH.
    change 255 with (Z.ones 8). rewrite Z.land_ones by lia.
    apply Z.bits_inj'. intros i Hi.
    rewrite Z.lor_spec.
    destruct (Z.lt_ge_cases i 8) as [Hlt|Hge].
    + rewrite Z.shiftl_spec_low by lia.
      rewrite !Z.mod_pow2_bits_low by lia. reflexivity.
    + rewrite Z.shiftl_spec by lia.
      rewrite (Z.mod_pow2_bits_high v 8 i) by lia.
      rewrite orb_false_r.
      destruct (Z.lt_ge_cases i (8 * Z.of_nat (S n))) as [Hlt|Hge'].
      * rewrite !Z.mod_pow2_bits_low by lia.
        rewrite Z.shiftr_spec by lia. f_equal. lia.
      * rewrite !Z.mod_pow2_bits_high by lia. reflexivity.
Qed.

Lemma le_bytes_length n : forall v, length (le_bytes n v) = n.
Proof. induction n; intros; cbn; auto. Qed.

Lemma le_bytes_range n : forall v, Forall (fun b => 0 <= b < 256) (le_bytes n v).
Proof.
  induction n as [|n IH]; intros v; cbn [le_bytes]; constructor; auto.
  change 255 with (Z.ones 8). rewrite Z.land_ones by lia.
  apply Z.mod_pos_bound. lia.
Qed.

Lemma parseInt16_hex2 b : 0 <= b < 256 -> parseInt16 (hex2 b) = Some b.
Proof.
  intros Hb.
  assert (Hall : forallb (fun b => bool_decide (parseInt16 (hex2 b) = Some b))
                   (seqZ 0 256) = true) by (vm_compute; reflexivity).
  rewrite forallb_forall in Hall.
  specialize (Hall b). rewrite bool_decide_eq_true in Hall. apply Hall.
  apply list_elem_of_In, elem_of_seqZ. lia.
Qed.

Lemma append_cons c (s t : string) : String c s +:+ t = String c (s +:+ t).
Proof. reflexivity. Qed.

Lemma append_nil (t : string) : EmptyString +:+ t = t.
Proof. reflexivity. Qed.

Lemma hex_of_bytes_app bs1 bs2 :
  hex_of_bytes (bs1 ++ bs2) = hex_of_bytes bs1 +:+ hex_of_bytes bs2.
Proof.
  unfold hex_of_bytes.
  induction bs1 as [|b bs1 IH]; cbn [foldr app]; [reflexivity|].
  rewrite IH. reflexivity.
Qed.

Lemma hex_of_bytes_cons b bs :
  hex_of_bytes (b :: bs)
  = String (hex_digit (b / 16)) (String (hex_digit (b mod 16)) (hex_of_bytes bs)).
Proof. reflexivity. Qed.

Lemma String_length_app (s t : string) :
  String.length (s +:+ t) = (String.length s + String.length t)%nat.
Proof.
  induction s as [|c s IH]; [reflexivity|].
  rewrite append_cons. cbn [String.length]. now rewrite IH.
Qed.

Lemma hex_of_bytes_length bs : String.length (hex_of_bytes bs) = (2 * length bs)%nat.
Proof.
  induction bs as [|b bs IH]; [reflexivity|].
  rewrite hex_of_bytes_cons. cbn [String.length length].
  rewrite IH. lia.
Qed.

Lemma str_slice_from_app (s t : string) :
  str_slice_from (String.length s) (s +:+ t) = t.
Proof.
  induction s as [|c s IH]; [now destruct t|].
  rewrite append_cons. cbn [String.length str_slice_from]. apply IH.
Qed.

Lemma str_slice_hex bs : forall i b,
  bs !! i = Some b -> str_slice (i * 2) (i * 2 + 2) (hex_of_bytes bs) = hex2 b.
Proof.
  unfold str_slice. intros i.
  replace (i * 2 + 2 - i * 2)%nat with 2%nat by lia.
  revert i. induction bs as [|b0 bs IH]; intros [|i] b Hb; try discriminate.
  - injection Hb as ->. rewrite hex_of_bytes_cons.
    cbn [String.substring Nat.mul].
    now destruct (hex_of_bytes bs).
  - cbn [lookup list_lookup] in Hb. rewrite hex_of_bytes_cons.
    cbn [String.substring Nat.mul Nat.add].
    now apply IH.
Qed.

(** The sixteen slices that [verify] parses give back the bytes that were
    written as hexadecimal digits. *)
Lemma amountBytes_hex bs :
  length bs = 16%nat -> Forall (fun b => 0 <= b < 256) bs ->
  amountBytes (hex_of_bytes bs) = bs.
Proof.
  intros Hlen Hrange. unfold amountBytes.
  apply list_eq. intros i. rewrite list_lookup_fmap.
  destruct (decide (i < 16)%nat) as [Hi|Hi].
  - rewrite lookup_seq_lt by lia. cbn [fmap option_fmap option_map Nat.add].
    destruct (lookup_lt_is_Some_2 bs i) as [b Hb]; [lia|].
    rewrite Hb, (str_slice_hex _ _ _ Hb).
    rewrite Forall_lookup in Hrange. specialize (Hrange _ _ Hb).
    rewrite parseInt16_hex2 by lia. cbn. now rewrite Z.mod_small by lia.
  - rewrite lookup_seq_ge by lia. symmetry. apply lookup_ge_None. lia.
Qed.

Lemma typed_set_length data src offset data' :
  typed_set data src offset = Some data' -> length data' = length data.
Proof.
  unfold typed_set. case_match eqn:Hle; [|discriminate].
  apply Nat.leb_le in Hle. intros [= <-].
  rewrite !length_app, length_take, length_drop. lia.
Qed.

Lemma transfer_bytes_fits selectorBytes toAccountId amount :
  length selectorBytes = 4%nat -> length toAccountId = 32%nat ->
  transfer_bytes selectorBytes toAccountId amount
  = Some (selectorBytes ++ toAccountId ++ u128ToLeBytes amount).
Proof.
  intros Hs Ha. unfold transfer_bytes, typed_set.
  destruct selectorBytes as [|s0 [|s1 [|s2 [|s3 [|]]]]]; try discriminate.
  do 33 (destruct toAccountId as [|? toAccountId]; try discriminate).
  reflexivity.
Qed.

Lemma transfer_bytes_amount selectorBytes toAccountId amount data :
  transfer_bytes selectorBytes toAccountId amount = Some data ->
  exists head, length head = 36%nat /\ data = head ++ u128ToLeBytes amount.
Proof.
  unfold transfer_bytes. cbv zeta.
  assert (Hlen : length (u128ToLeBytes amount) = 16%nat) by apply le_bytes_length.
  revert Hlen. generalize (u128ToLeBytes amount). intros amt Hlen.
  destruct (typed_set _ selectorBytes 0) as [data1|] eqn:H1; [|discriminate].
  cbn [mbind option_bind].
  destruct (typed_set data1 toAccountId 4) as [data2|] eqn:H2; [|discriminate].
  cbn [mbind option_bind].
  apply typed_set_length in H1, H2. rewrite length_replicate in H1.
  unfold typed_set.
  rewrite Hlen. case_match; [|discriminate]. intros [= <-].
  exists (take 36 data2). split.
  - rewrite length_take. lia.
  - rewrite (drop_ge data2) by lia. now rewrite app_nil_r.
Qed.

Lemma calldata_amount selectorBytes toAccountId amount input :
  buildTransferData selectorBytes toAccountId amount = Some input ->
  String.length input = 106%nat
  /\ amountBytes (str_slice_from (2 + 72) input) = u128ToLeBytes amount.
Proof.
  unfold buildTransferData.
  destruct (transfer_bytes _ _ _) as [data|] eqn:Hdata; [|discriminate].
  intros [= <-].
  destruct (transfer_bytes_amount _ _ _ _ Hdata) as (head & Hhead & ->).
  unfold bytesToHex. rewrite hex_of_bytes_app.
  assert (Hh : String.length ("0x" +:+ hex_of_bytes head) = (2 + 72)%nat).
  { rewrite String_length_app, hex_of_bytes_length, Hhead. reflexivity. }
  split.
  - change ("0x" +:+ (hex_of_bytes head +:+ hex_of_bytes (u128ToLeBytes amount)))
      with (("0x" +:+ hex_of_bytes head) +:+ hex_of_bytes (u128ToLeBytes amount)).
    rewrite String_length_app, Hh, hex_of_bytes_length.
    unfold u128ToLeBytes. rewrite le_bytes_length. reflexivity.
  - change ("0x" +:+ (hex_of_bytes head +:+ hex_of_bytes (u128ToLeBytes amount)))
      with (("0x" +:+ hex_of_bytes head) +:+ hex_of_bytes (u128ToLeBytes amount)).
    rewrite <- Hh, str_slice_from_app.
    apply amountBytes_hex; [apply le_bytes_length | apply le_bytes_range].
Qed.

(** X1.  The sixteen bytes that the simulator writes for an amount are
    bytes, and the facilitator's loop reads them back as the amount
    modulo 2^128. *)
Theorem amount_bytes_round_trip (value : Z) :
  length (u128ToLeBytes value) = 16%nat
  /\ Forall (fun b => 0 <= b < 256) (u128ToLeBytes value)
  /\ le_u128 (u128ToLeBytes value) = value mod 2 ^ 128.
Proof.
  split; [apply le_bytes_length|]. split; [apply le_bytes_range|].
  unfold u128ToLeBytes. now rewrite le_u128_le_bytes.
Qed.

(** X2.  With a four-byte selector and a 32-byte account id
    [buildTransferData] returns the 106 characters "0x", selector,
    account id, amount, and the facilitator decodes the amount modulo
    2^128 from them. *)
Theorem transfer_calldata_decodes selectorBytes toAccountId amount :
  length selectorBytes = 4%nat -> length toAccountId = 32%nat ->
  exists input,
    buildTransferData selectorBytes toAccountId amount = Some input
    /\ input = "0x" +:+ hex_of_bytes selectorBytes +:+ hex_of_bytes toAccountId
                    +:+ hex_of_bytes (u128ToLeBytes amount)
    /\ String.length input = 106%nat
    /\ le_u128 (amountBytes (str_slice_from (2 + 72) input)) = amount mod 2 ^ 128.
Proof.
  intros Hs Ha.
  assert (Hb : buildTransferData selectorBytes toAccountId amount
               = Some ("0x" +:+ hex_of_bytes selectorBytes +:+ hex_of_bytes toAccountId
                        +:+ hex_of_bytes (u128ToLeBytes amount))).
  { unfold buildTransferData.
    rewrite (transfer_bytes_fits _ _ _ Hs Ha). cbn [fmap option_fmap option_map].
    unfold bytesToHex. now rewrite !hex_of_bytes_app. }
  eexists. split; [exact Hb|]. split; [reflexivity|].
  destruct (calldata_amount _ _ _ _ Hb) as [Hlen Hbytes].
  split; [exact Hlen|].
  rewrite Hbytes. unfold u128ToLeBytes. now rewrite le_u128_le_bytes.
Qed.

Lemma transfer_calldata_decodes_witness :
  exists input,
    buildTransferData sample_selector (accountIdFromInt 65535) 100 = Some input
    /\ input = "0x" +:+ hex_of_bytes sample_selector
                    +:+ hex_of_bytes (accountIdFromInt 65535)
                    +:+ hex_of_bytes (u128ToLeBytes 100)
    /\ String.length input = 106%nat
    /\ le_u128 (amountBytes (str_slice_from (2 + 72) input)) = 100 mod 2 ^ 128.
Proof.
  apply (transfer_calldata_decodes sample_selector (accountIdFromInt 65535) 100);
    reflexivity.
Defined.

(** X3.  A payment whose calldata the simulator built with
    [buildTransferData] for [amount], on a successful receipt and with a
    hash the guard does not hold, is answered by [verify] from the amount
    alone: valid with the sender of the receipt as payer when
    [amount mod 2^128] reaches the required amount, "Insufficient
    payment" otherwise. *)
Theorem built_payment_verifies client st p req now
    selectorBytes toAccountId value calldata sender need :
  buildTransferData selectorBytes toAccountId value = Some calldata ->
  txHash p <> EmptyString ->
  evictStale now (usedTxHashes st) !! txHash p = None ->
  getTransactionReceipt client (txHash p)
    = Resolved (Some {| status := StatusSuccess; from := sender |}) ->
  getTransaction client (txHash p) = Resolved (Some {| input := calldata |}) ->
  BigInt_of_string (amount req) = Some need ->
  (verify client st p req now).2
  = if value mod 2 ^ 128 <? need
    then invalid (insufficient_msg (value mod 2 ^ 128) need)
    else valid sender.
Proof.
  intros Hbuild Hne Hfree Hreceipt Htx Hneed.
  rewrite (verify_unused _ _ _ _ _ Hne Hfree).
  destruct (calldata_amount _ _ _ _ Hbuild) as [Hlen Hbytes].
  unfold verify_ledger. rewrite Hreceipt. cbn [status from].
  rewrite Htx. cbn [input]. rewrite Hlen.
  change (106 <? 106)%nat with false. cbv iota zeta.
  rewrite Hbytes, Hneed.
  unfold u128ToLeBytes. rewrite le_u128_le_bytes.
  change (8 * Z.of_nat 16) with 128.
  now destruct (value mod 2 ^ 128 <? need).
Qed.

Lemma built_payment_verifies_witness :
  let calldata := "0xb483afd3"
    +:+ "000000000000000000000000000000000000000000000000000000000000ffff"
    +:+ "64000000000000000000000000000000" in
  let client :=
    {| getTransactionReceipt := fun _ =>
         Resolved (Some {| status := StatusSuccess; from := "0xpayer" |});
       getTransaction := fun _ => Resolved (Some {| input := calldata |}) |} in
  (verify client fresh proof_c price_100 5).2 = valid "0xpayer".
Proof.
  intros calldata client.
  apply (built_payment_verifies client fresh proof_c price_100 5
           sample_selector (accountIdFromInt 65535) 100 calldata "0xpayer" 100);
    solve [reflexivity | discriminate | vm_compute; reflexivity].
Defined.

End Calldata.

(** ** Account ids *)
Section AccountIdBytes.
Import JS EvolveUtils AccountIds.

Lemma le_bytes_lookup n : forall v i,
  (i < n)%nat -> le_bytes n v !! i = Some ((v / 256 ^ Z.of_nat i) mod 256).
Proof.
  induction n as [|n IH]; intros v i Hi; [lia|].
  destruct i as [|i]; cbn [le_bytes lookup list_lookup].
  - change 255 with (Z.ones 8). rewrite Z.land_ones by lia.
    now rewrite Z.div_1_r.
  - rewrite IH by lia. f_equal. rewrite Z.shiftr_div_pow2 by lia.
    rewrite Z.div_div by lia. f_equal. f_equal.
    rewrite Nat2Z.inj_succ, Z.pow_succ_r by lia. reflexivity.
Qed.

(** Reading the bytes most significant first gives the value back. *)
Lemma big_endian_le_bytes n : forall v,
  foldl (fun a b => a * 256 + b) 0 (reverse (le_bytes n v)) = v mod 2 ^ (8 * Z.of_nat n).
Proof.
  induction n as [|n IH]; intros v.
  - cbn. now rewrite Z.mod_1_r.
  - cbn [le_bytes]. rewrite reverse_cons, foldl_app. cbn [foldl]. rewrite IH.
    change 255 with (Z.ones 8). rewrite Z.land_ones by lia.
    rewrite Z.shiftr_div_pow2 by lia.
    replace (8 * Z.of_nat (S n)) with (8 + 8 * Z.of_nat n) by lia.
    rewrite Z.pow_add_r by lia.
    rewrite (Z.rem_mul_r v (2 ^ 8) (2 ^ (8 * Z.of_nat n))) by lia.
    change (2 ^ 8) with 256. lia.
Qed.

Lemma digit_in_hex_digit d : 0 <= d < 16 -> digit_in 16 (hex_digit d) = Some d.
Proof.
  intros Hd.
  assert (Hall : forallb (fun d => bool_decide (digit_in 16 (hex_digit d) = Some d))
                   (seqZ 0 16) = true) by (vm_compute; reflexivity).
  rewrite forallb_forall in Hall.
  specialize (Hall d). rewrite bool_decide_eq_true in Hall. apply Hall.
  apply list_elem_of_In, elem_of_seqZ. lia.
Qed.

Lemma read_digits_hex bs : forall acc k,
  Forall (fun b => 0 <= b < 256) bs ->
  read_digits 16 (hex_of_bytes bs) acc k
  = (foldl (fun a b => a * 256 + b) acc bs, (k + 2 * length bs)%nat, EmptyString).
Proof.
  induction bs as [|b bs IH]; intros acc k Hr.
  - cbn. do 2 f_equal. lia.
  - apply Forall_cons in Hr as [Hb Hr].
    rewrite hex_of_bytes_cons. cbn [read_digits].
    rewrite !digit_in_hex_digit
      by (split; [apply Z.div_pos || apply Z.mod_pos_bound
                 | apply Z.div_lt_upper_bound || apply Z.mod_pos_bound]; lia).
    rewrite IH by assumption. cbn [foldl length].
    replace ((acc * 16 + b / 16) * 16 + b mod 16) with (acc * 256 + b)
      by (pose proof (Z.div_mod b 16); lia).
    do 2 f_equal. lia.
Qed.

Lemma hex_digit_no_space d : 0 <= d < 16 -> is_js_space (hex_digit d) = false.
Proof.
  intros Hd.
  assert (Hall : forallb (fun d => negb (is_js_space (hex_digit d))) (seqZ 0 16) = true)
    by (vm_compute; reflexivity).
  rewrite forallb_forall in Hall.
  apply negb_true_iff, Hall, list_elem_of_In, elem_of_seqZ. lia.
Qed.

Lemma str_rev_acc_twice s : forall a b,
  str_rev_acc (str_rev_acc s a) b = str_rev_acc a (s +:+ b).
Proof.
  induction s as [|c s IH]; intros a b; [reflexivity|].
  cbn [str_rev_acc]. rewrite IH. reflexivity.
Qed.

Lemma append_empty_r (s : string) : s +:+ EmptyString = s.
Proof. induction s as [|c s IH]; [reflexivity|]. now rewrite append_cons, IH. Qed.

Lemma skip_space_rev_hex bs : forall acc,
  Forall (fun b => 0 <= b < 256) bs -> skip_space acc = acc ->
  skip_space (str_rev_acc (hex_of_bytes bs) acc) = str_rev_acc (hex_of_bytes bs) acc.
Proof.
  induction bs as [|b bs IH]; intros acc Hr Hacc; [exact Hacc|].
  apply Forall_cons in Hr as [Hb Hr].
  rewrite hex_of_bytes_cons. cbn [str_rev_acc].
  apply IH; [assumption|]. cbn [skip_space].
  rewrite hex_digit_no_space; [reflexivity|].
  apply Z.mod_pos_bound. lia.
Qed.

(** A [0x] literal of whole bytes passes [BigInt] with its big-endian
    value. *)
Lemma BigInt_of_hex bs :
  bs <> [] -> Forall (fun b => 0 <= b < 256) bs ->
  BigInt_of_string ("0x" +:+ hex_of_bytes bs)
  = Some (foldl (fun a b => a * 256 + b) 0 bs).
Proof.
  intros Hne Hr.
  assert (Htrim : trim ("0x" +:+ hex_of_bytes bs) = "0x" +:+ hex_of_bytes bs).
  { unfold trim.
    change (skip_space ("0x" +:+ hex_of_bytes bs)) with ("0x" +:+ hex_of_bytes bs).
    change (str_rev_acc ("0x" +:+ hex_of_bytes bs) EmptyString)
      with (str_rev_acc (hex_of_bytes bs) "x0").
    rewrite skip_space_rev_hex by (assumption || reflexivity).
    rewrite str_rev_acc_twice. cbn [str_rev_acc].
    now rewrite append_empty_r. }
  unfold BigInt_of_string. rewrite Htrim.
  change ("0x" +:+ hex_of_bytes bs) with (String "0" (String "x" (hex_of_bytes bs))).
  cbv iota beta. unfold all_digits. rewrite read_digits_hex by assumption.
  destruct bs as [|b bs]; [congruence|]. reflexivity.
Qed.

(** X4.  [accountIdFromInt] writes the base-256 digits of the id, most
    significant first, into 32 bytes: the byte at index [31 - i] is digit
    [i]. *)
Theorem accountIdFromInt_big_endian (id : Z) (i : nat) :
  (i < 32)%nat ->
  length (accountIdFromInt id) = 32%nat
  /\ accountIdFromInt id !! (31 - i)%nat = Some ((id / 256 ^ Z.of_nat i) mod 256).
Proof.
  intros Hi. unfold accountIdFromInt. split.
  - now rewrite length_reverse, le_bytes_length.
  - rewrite reverse_lookup by (rewrite le_bytes_length; lia).
    rewrite le_bytes_length. replace (32 - S (31 - i))%nat with i by lia.
    now apply le_bytes_lookup.
Qed.

Lemma accountIdFromInt_big_endian_witness :
  accountIdFromInt 65535 !! 30%nat = Some 255
  /\ accountIdFromInt 65535 !! 29%nat = Some 0.
Proof.
  split.
  - refine (proj2 (accountIdFromInt_big_endian 65535 1 _)). lia.
  - refine (proj2 (accountIdFromInt_big_endian 65535 2 _)). lia.
Defined.

(** X5.  In the revision with integer account ids, [addressToAccountId]
    reads back from the address that [accountIdToAddress] built the id
    modulo 2^128; the address has 42 characters. *)
Theorem account_id_address_round_trip (id : Z) :
  String.length (accountIdToAddress id) = 42%nat
  /\ addressToAccountId (accountIdToAddress id) = Some (id mod 2 ^ 128).
Proof.
  assert (Haddr : accountIdToAddress id
                  = "0x00000000" +:+ hex_of_bytes (reverse (le_bytes 16 id))).
  { unfold accountIdToAddress. cbv zeta.
    assert (Hlen : length (reverse (le_bytes 16 id)) = 16%nat)
      by now rewrite length_reverse, le_bytes_length.
    revert Hlen. generalize (reverse (le_bytes 16 id)). intros idBytes Hlen.
    do 17 (destruct idBytes as [|? idBytes]; try discriminate).
    reflexivity. }
  rewrite Haddr. split.
  - rewrite String_length_app, hex_of_bytes_length, length_reverse, le_bytes_length.
    reflexivity.
  - unfold addressToAccountId. cbv zeta.
    change (str_slice_from 8 (str_slice_from 2
              ("0x00000000" +:+ hex_of_bytes (reverse (le_bytes 16 id)))))
      with (hex_of_bytes (reverse (le_bytes 16 id))).
    rewrite BigInt_of_hex.
    + now rewrite big_endian_le_bytes.
    + intros Hnil. apply (f_equal length) in Hnil.
      rewrite length_reverse, le_bytes_length in Hnil. discriminate.
    + apply Forall_reverse, le_bytes_range.
Qed.

(** X6.  For a count that is not negative [getAgentPrivateKeys]
    returns exactly that many keys: the first Hardhat keys while the
    count is at most 17, and beyond that all 17 followed by one generated
    key for each agent above 17. *)
Theorem agent_keys_by_count generated (agentCount : Z) :
  0 <= agentCount ->
  let keys := getAgentPrivateKeys generated agentCount in
  length keys = Z.to_nat agentCount
  /\ (agentCount <= 17 -> keys = take (Z.to_nat agentCount) HARDHAT_AGENT_KEYS)
  /\ (17 <= agentCount ->
      keys = HARDHAT_AGENT_KEYS ++ map generated (seq 0 (Z.to_nat agentCount - 17))).
Proof.
  intros Hn. cbv zeta. unfold getAgentPrivateKeys.
  assert (Hlen : length HARDHAT_AGENT_KEYS = 17%nat) by reflexivity.
  rewrite Hlen. revert Hlen. generalize HARDHAT_AGENT_KEYS. intros hardhat Hlen.
  destruct (Z.leb_spec 0 agentCount) as [_|]; [|lia].
  assert (Hmissing : Z.to_nat (agentCount - Z.of_nat 17) = (Z.to_nat agentCount - 17)%nat)
    by lia.
  rewrite Hmissing. repeat split.
  - rewrite length_take, length_app, length_map, length_seq. lia.
  - intros Hle. rewrite take_app_le by lia. reflexivity.
  - intros Hge. rewrite take_ge; [reflexivity|].
    rewrite length_app, length_map, length_seq. lia.
Qed.

Lemma agent_keys_by_count_witness :
  length (getAgentPrivateKeys (fun _ => "0x00"%string) 20) = 20%nat
  /\ getAgentPrivateKeys (fun _ => "0x00"%string) 2 = take 2 HARDHAT_AGENT_KEYS.
Proof.
  split.
  - refine (proj1 (agent_keys_by_count (fun _ => "0x00"%string) 20 _)). lia.
  - refine (proj1 (proj2 (agent_keys_by_count (fun _ => "0x00"%string) 2 _)) _); lia.
Defined.

End AccountIdBytes.

(** ** The emitter: delivery and queries *)
Section EmitterQueries.
Import JS Events EventQueries.



Lemma slice_from_negative {A} (k : Z) (l : list A) :
  0 < k -> slice_from (- k) l = slice_last (Z.to_nat k) l.
Proof.
  intros Hk. unfold slice_from, slice_last. cbv zeta.
  destruct (Z.ltb_spec (- k) 0) as [_|]; [|lia].
  f_equal. lia.
Qed.

Lemma count_event_counters m e :
  totalPayments (count_event m e) + successfulPayments (count_event m e)
  + failedPayments (count_event m e) + totalRequests (count_event m e)
  <= totalPayments m + successfulPayments m + failedPayments m + totalRequests m + 1.
Proof. unfold count_event. destruct (type e); cbn; lia. Qed.

Lemma getMetrics_sum log : forall m,
  let r := foldl count_event m log in
  totalPayments r + successfulPayments r + failedPayments r + totalRequests r
  <= totalPayments m + successfulPayments m + failedPayments m + totalRequests m
     + Z.of_nat (length log).
Proof.
  induction log as [|e log IH]; intros m; cbn [foldl length]; [lia|].
  cbv zeta in IH. specialize (IH (count_event m e)).
  pose proof (count_event_counters m e). lia.
Qed.

Lemma count_type_cons ty e log :
  count_type ty (e :: log)
  = (if decide (type e = ty) then 1 else 0) + count_type ty log.
Proof.
  unfold count_type. rewrite filter_cons.
  destruct (decide (type e = ty)); cbn [length]; lia.
Qed.

Lemma getMetrics_counts log : forall m,
  let r := foldl count_event m log in
  totalPayments r = totalPayments m + count_type payment_submitted log
  /\ successfulPayments r = successfulPayments m + count_type payment_confirmed log
  /\ failedPayments r = failedPayments m + count_type payment_failed log
  /\ totalRequests r = totalRequests m + count_type request_served log.
Proof.
  induction log as [|e log IH]; intros m; cbn [foldl].
  - unfold count_type. cbn. lia.
  - cbv zeta in IH. destruct (IH (count_event m e)) as (H1 & H2 & H3 & H4).
    rewrite H1, H2, H3, H4, !count_type_cons.
    unfold count_event.
    destruct (type e); repeat case_decide; try discriminate; try congruence;
      cbn; repeat split; lia.
Qed.



(** X8.  [getRecentEvents(count)] returns the last [count] events for a
    positive count, at most the whole log; for [count = 0] it returns the
    whole log, not an empty array, and for a negative count it drops
    [-count] events from the front. *)
Theorem recent_events_by_count st (count : Z) :
  (0 < count ->
     getRecentEvents st count = slice_last (Z.to_nat count) (eventLog st)
     /\ length (getRecentEvents st count)
        = Nat.min (Z.to_nat count) (length (eventLog st)))
  /\ (count = 0 -> getRecentEvents st count = eventLog st)
  /\ (count < 0 -> getRecentEvents st count = drop (Z.to_nat (- count)) (eventLog st))
  /\ getRecentEvents st count `suffix_of` eventLog st.
Proof.
  unfold getRecentEvents. repeat split.
  - now apply slice_from_negative.
  - rewrite slice_from_negative by assumption. apply slice_last_length.
  - intros ->. unfold slice_from. cbn [Z.opp Z.ltb Z.compare].
    rewrite Z.min_l by lia. reflexivity.
  - intros Hc. unfold slice_from. cbv zeta.
    destruct (Z.ltb_spec (- count) 0) as [|_]; [lia|].
    destruct (Z.le_gt_cases (- count) (Z.of_nat (length (eventLog st)))).
    + now rewrite Z.min_l by lia.
    + rewrite Z.min_r by lia. rewrite Nat2Z.id.
      rewrite !drop_ge by lia. reflexivity.
  - unfold slice_from. apply suffix_drop.
Qed.

(** X9.  Each counter of [getMetrics] is the number of logged events of
    its type; in a reachable emitter the four counters together are at
    most the length of the log, hence at most 1000: they describe the
    retained log, not all events ever emitted. *)
Theorem emitter_metrics_count_the_log st :
  reachable st ->
  let m := getMetrics st in
  totalPayments m = count_type payment_submitted (eventLog st)
  /\ successfulPayments m = count_type payment_confirmed (eventLog st)
  /\ failedPayments m = count_type payment_failed (eventLog st)
  /\ totalRequests m = count_type request_served (eventLog st)
  /\ totalPayments m + successfulPayments m + failedPayments m + totalRequests m
     <= Z.of_nat (length (eventLog st)) <= maxLogSize.
Proof.
  intros Hr. cbv zeta. unfold getMetrics.
  destruct (getMetrics_counts (eventLog st) no_metrics) as (H1 & H2 & H3 & H4).
  pose proof (getMetrics_sum (eventLog st) no_metrics) as Hsum.
  pose proof (reachable_log_bound st Hr) as Hb.
  cbv zeta in Hsum. cbn [no_metrics totalPayments successfulPayments failedPayments
                         totalRequests] in *.
  repeat split; try assumption; lia.
Qed.

Lemma emitter_metrics_count_the_log_witness :
  totalRequests (getMetrics (emit_all init (served_run 1000))) = 1000
  /\ totalRequests (getMetrics (emit_all init (served_run 1001))) = 500.
Proof.
  split.
  - destruct (emitter_metrics_count_the_log (emit_all init (served_run 1000))
                (reachable_emit_all _ _ reach_init)) as (_ & _ & _ & H & _).
    rewrite H. vm_compute. reflexivity.
  - vm_compute. reflexivity.
Defined.

End EmitterQueries.

(** ** More on the facilitator *)
Section FacilitatorAnswers.
Import JS Facilitator.

Lemma evictStale_compose now1 now2 m :
  now1 <= now2 -> evictStale now2 (evictStale now1 m) = evictStale now2 m.
Proof.
  intros Hle. apply map_eq. intros h. rewrite !evictStale_lookup.
  destruct (m !! h) as [ts|]; [|reflexivity].
  unfold stale.
  destruct (Z.ltb_spec TX_HASH_TTL_MS (now1 - ts)),
           (Z.ltb_spec TX_HASH_TTL_MS (now2 - ts)); try reflexivity; lia.
Qed.

Lemma verify_depends_on_evicted client st st' p req now :
  network st = network st' ->
  evictStale now (usedTxHashes st) = evictStale now (usedTxHashes st') ->
  verify client st p req now = verify client st' p req now.
Proof.
  intros Hn He. unfold verify, with_used. cbv zeta. cbn [usedTxHashes].
  rewrite He, Hn. reflexivity.
Qed.

Lemma exec_all_cons st c cs : exec_all st (c :: cs) = exec_all (exec st c) cs.
Proof. reflexivity. Qed.

Lemma verify_ledger_valid client h req r :
  verify_ledger client h req = Some r -> isValid r = true ->
  exists receipt tx need,
    getTransactionReceipt client h = Resolved (Some receipt)
    /\ status receipt = StatusSuccess
    /\ getTransaction client h = Resolved (Some tx)
    /\ (106 <= String.length (input tx))%nat
    /\ BigInt_of_string (amount req) = Some need
    /\ need <= le_u128 (amountBytes (str_slice_from (2 + 72) (input tx)))
    /\ r = valid (from receipt).
Proof.
  unfold verify_ledger.
  destruct (getTransactionReceipt client h) as [[receipt|]|] eqn:Hreceipt.
  2: { intros [= <-] Hv. discriminate Hv. }
  2: { intros Hr. discriminate Hr. }
  destruct (status receipt) eqn:Hstatus.
  2: { intros [= <-] Hv. discriminate Hv. }
  destruct (getTransaction client h) as [[tx|]|] eqn:Htx.
  2: { intros [= <-] Hv. discriminate Hv. }
  2: { intros Hr. discriminate Hr. }
  destruct (Nat.ltb_spec (String.length (input tx)) 106) as [|Hlen].
  { intros [= <-] Hv. discriminate Hv. }
  cbv zeta.
  remember (le_u128 (amountBytes (str_slice_from (2 + 72) (input tx)))) as got
    eqn:Hgot.
  destruct (BigInt_of_string (amount req)) as [need|] eqn:Hneed.
  2: { intros Hr. discriminate Hr. }
  destruct (Z.ltb_spec got need) as [|Hge].
  { intros [= <-] Hv. discriminate Hv. }
  intros [= <-] _.
  exists receipt, tx, need. rewrite <- Hgot.
  repeat split; try assumption; try reflexivity.
Qed.

(** X10.  A valid answer of [verify] means: the hash is not empty and not
    held by the guard, the ledger returned a receipt with status success
    and the transaction, the calldata has at least 106 characters, the
    required amount parsed, the amount decoded from bytes 36..52 reaches
    it, and the payer is the sender of the receipt. *)
Theorem valid_answer_means_paid client st p req now :
  isValid (verify client st p req now).2 = true ->
  txHash p <> EmptyString
  /\ evictStale now (usedTxHashes st) !! txHash p = None
  /\ exists receipt tx need,
       getTransactionReceipt client (txHash p) = Resolved (Some receipt)
       /\ status receipt = StatusSuccess
       /\ getTransaction client (txHash p) = Resolved (Some tx)
       /\ (106 <= String.length (input tx))%nat
       /\ BigInt_of_string (amount req) = Some need
       /\ need <= le_u128 (amountBytes (str_slice_from (2 + 72) (input tx)))
       /\ (verify client st p req now).2 = valid (from receipt).
Proof.
  intros Hv.
  destruct (decide (txHash p = EmptyString)) as [Hempty|Hempty].
  { exfalso. revert Hv. unfold verify. cbv zeta. rewrite Hempty.
    cbn [String.eqb snd]. intros Hv. discriminate Hv. }
  destruct (evictStale now (usedTxHashes st) !! txHash p) as [ts|] eqn:Hused.
  { exfalso. rewrite (verify_used _ _ _ _ _ _ Hempty Hused) in Hv. discriminate Hv. }
  split; [exact Hempty|]. split; [reflexivity|].
  rewrite (verify_unused _ _ _ _ _ Hempty Hused) in Hv |- *.
  destruct (verify_ledger client (txHash p) req) as [r|] eqn:Hr.
  2: { discriminate Hv. }
  cbn [default] in Hv |- *.
  exact (verify_ledger_valid _ _ _ _ Hr Hv).
Qed.

Lemma valid_answer_means_paid_witness :
  txHash proof_c <> EmptyString
  /\ evictStale 5 (usedTxHashes fresh) !! txHash proof_c = None
  /\ exists receipt tx need,
       getTransactionReceipt paying_ledger (txHash proof_c) = Resolved (Some receipt)
       /\ status receipt = StatusSuccess
       /\ getTransaction paying_ledger (txHash proof_c) = Resolved (Some tx)
       /\ (106 <= String.length (input tx))%nat
       /\ BigInt_of_string (amount price_100) = Some need
       /\ need <= le_u128 (amountBytes (str_slice_from (2 + 72) (input tx)))
       /\ (verify paying_ledger fresh proof_c price_100 5).2 = valid (from receipt).
Proof.
  apply (valid_answer_means_paid paying_ledger fresh proof_c price_100 5).
  vm_compute. reflexivity.
Defined.

(** X11.  A call of [verify] leaves no trace for a later one: the
    answer and the state of a [verify] at [now2] are the same whether or
    not another [verify], of any payment, ran before at [now1 <= now2]. *)
Theorem earlier_verify_leaves_no_trace client1 client2 st p1 p2 req1 req2 now1 now2 :
  now1 <= now2 ->
  verify client2 (verify client1 st p1 req1 now1).1 p2 req2 now2
  = verify client2 st p2 req2 now2.
Proof.
  intros Hle. apply verify_depends_on_evicted.
  - now rewrite verify_state.
  - rewrite verify_guard. now apply evictStale_compose.
Qed.

Lemma earlier_verify_leaves_no_trace_witness :
  verify paying_ledger (verify paying_ledger fresh proof_d price_100 10).1
    proof_c price_100 20
  = verify paying_ledger fresh proof_c price_100 20.
Proof.
  apply (earlier_verify_leaves_no_trace paying_ledger paying_ledger fresh
           proof_d proof_c price_100 price_100 10 20).
  lia.
Defined.

(** X12.  Only [settle] writes to the replay guard: after any sequence of
    [verify] and [settle] calls, an entry of the guard was there at the
    start or is the clock reading of a [settle] call of the sequence for
    that hash. *)
Theorem guard_entries_come_from_settle cs : forall st h ts,
  usedTxHashes (exec_all st cs) !! h = Some ts ->
  usedTxHashes st !! h = Some ts
  \/ exists client p req, CallSettle client p req ts ∈ cs /\ txHash p = h.
Proof.
  induction cs as [|c cs IH]; intros st h ts Hts; [now left|].
  rewrite exec_all_cons in Hts.
  destruct (IH _ _ _ Hts) as [Hc|(client & p & req & Hin & Hp)].
  - destruct c as [client p req now|client p req now]; cbn [exec] in Hc.
    + left. rewrite verify_guard, evictStale_lookup in Hc.
      destruct (usedTxHashes st !! h) as [ts0|]; [|discriminate].
      destruct (stale now ts0); [discriminate|exact Hc].
    + rewrite settle_guard in Hc.
      destruct (decide (txHash p = h)) as [<-|Hne].
      * rewrite lookup_insert_eq in Hc. injection Hc as ->.
        right. exists client, p, req. split; [apply list_elem_of_here|reflexivity].
      * rewrite lookup_insert_ne in Hc by exact Hne. now left.
  - right. exists client, p, req. split; [now apply list_elem_of_further|exact Hp].
Qed.

Lemma guard_entries_come_from_settle_witness :
  let cs := [CallVerify paying_ledger proof_c price_100 10;
             CallSettle paying_ledger proof_c price_100 20;
             CallVerify paying_ledger proof_c price_100 30] in
  usedTxHashes (exec_all fresh cs) !! "0xcc"%string = Some 20
  /\ (usedTxHashes fresh !! "0xcc"%string = Some 20
      \/ exists client p req, CallSettle client p req 20 ∈ cs /\ txHash p = "0xcc"%string).
Proof.
  intros cs.
  assert (H : usedTxHashes (exec_all fresh cs) !! "0xcc"%string = Some 20)
    by (vm_compute; reflexivity).
  split; [exact H|].
  exact (guard_entries_come_from_settle cs fresh "0xcc"%string 20 H).
Defined.

(** X13.  The payer that [settle] reports is the payer that a valid
    [verify] of the same payment named, when the ledger answers both
    calls alike: the sender of the receipt. *)
Theorem settle_names_verified_payer client st st' p req req' now now' :
  isValid (verify client st p req now).2 = true ->
  Some (settle_payer (settle client st' p req' now').2)
  = payer (verify client st p req now).2.
Proof.
  intros Hv.
  destruct (decide (txHash p = EmptyString)) as [Hempty|Hempty].
  { exfalso. revert Hv. unfold verify. cbv zeta. rewrite Hempty.
    cbn [String.eqb snd]. intros Hv. discriminate Hv. }
  destruct (evictStale now (usedTxHashes st) !! txHash p) as [ts|] eqn:Hused.
  { exfalso. rewrite (verify_used _ _ _ _ _ _ Hempty Hused) in Hv. discriminate Hv. }
  rewrite (verify_unused _ _ _ _ _ Hempty Hused) in Hv |- *.
  destruct (verify_ledger client (txHash p) req) as [r|] eqn:Hr.
  2: { discriminate Hv. }
  cbn [default] in Hv |- *.
  destruct (verify_ledger_valid _ _ _ _ Hr Hv)
    as (receipt & tx & need & Hreceipt & _ & _ & _ & _ & _ & ->).
  unfold settle. cbv zeta. cbn [snd settle_payer].
  rewrite Hreceipt. reflexivity.
Qed.

Lemma settle_names_verified_payer_witness :
  Some (settle_payer (settle paying_ledger fresh proof_c price_100 20).2)
  = payer (verify paying_ledger fresh proof_c price_100 10).2.
Proof.
  apply (settle_names_verified_payer paying_ledger fresh fresh proof_c
           price_100 price_100 10 20).
  vm_compute. reflexivity.
Defined.

End FacilitatorAnswers.

(** ** The event hooks *)
Section HookMaps.
Import JS Events EventQueries Hooks.
Variable decode : string -> option string.
Variable pathname : string -> option string.

Lemma sweep_fold_hit now l : forall st h ts,
  (h, ts) ∈ l -> aged now ts = true ->
  verifyTimestamps (foldr (sweep_entry now) st l) !! h = None
  /\ txAgentMap (foldr (sweep_entry now) st l) !! h = None.
Proof.
  induction l as [|[h0 ts0] l IH]; intros st h ts Hin Haged.
  - now apply elem_of_nil in Hin.
  - cbn [foldr].
    apply elem_of_cons in Hin as [[= <- <-]|Hin].
    + set (st' := foldr (sweep_entry now) st l). unfold sweep_entry. cbn [fst snd].
      rewrite Haged. cbn [verifyTimestamps txAgentMap].
      split; apply lookup_delete_eq.
    + destruct (IH st h ts Hin Haged) as [H1 H2].
      set (st' := foldr (sweep_entry now) st l) in *.
      unfold sweep_entry. cbn [fst snd].
      destruct (aged now ts0); [|now split].
      cbn [verifyTimestamps txAgentMap].
      destruct (decide (h0 = h)) as [->|Hne].
      * split; apply lookup_delete_eq.
      * rewrite !lookup_delete_ne by exact Hne. now split.
Qed.

Lemma sweep_fold_miss now l : forall st h,
  (forall ts, (h, ts) ∈ l -> aged now ts = false) ->
  verifyTimestamps (foldr (sweep_entry now) st l) !! h = verifyTimestamps st !! h
  /\ txAgentMap (foldr (sweep_entry now) st l) !! h = txAgentMap st !! h.
Proof.
  induction l as [|[h0 ts0] l IH]; intros st h Hfresh; [now split|].
  cbn [foldr].
  destruct (IH st h) as [H1 H2].
  { intros ts Hin. apply Hfresh. now apply list_elem_of_further. }
  set (st' := foldr (sweep_entry now) st l) in *.
  unfold sweep_entry. cbn [fst snd].
  destruct (aged now ts0) eqn:Haged; [|now split].
  cbn [verifyTimestamps txAgentMap].
  assert (Hne : h0 <> h).
  { intros ->. specialize (Hfresh ts0 (list_elem_of_here _ _)). congruence. }
  rewrite !lookup_delete_ne by exact Hne. now split.
Qed.

Lemma sweep_lookup now st h :
  match verifyTimestamps st !! h with
  | Some ts =>
      if aged now ts
      then verifyTimestamps (sweep now st) !! h = None
           /\ txAgentMap (sweep now st) !! h = None
      else verifyTimestamps (sweep now st) !! h = Some ts
           /\ txAgentMap (sweep now st) !! h = txAgentMap st !! h
  | None =>
      verifyTimestamps (sweep now st) !! h = None
      /\ txAgentMap (sweep now st) !! h = txAgentMap st !! h
  end.
Proof.
  unfold sweep.
  destruct (verifyTimestamps st !! h) as [ts|] eqn:Hts.
  - destruct (aged now ts) eqn:Haged.
    + apply (sweep_fold_hit now _ st h ts); [|exact Haged].
      now apply elem_of_map_to_list.
    + rewrite <- Hts. apply sweep_fold_miss.
      intros ts' Hin. apply elem_of_map_to_list in Hin. congruence.
  - rewrite <- Hts. apply sweep_fold_miss.
    intros ts' Hin. apply elem_of_map_to_list in Hin. congruence.
Qed.

Lemma captureAgentId_timestamps st a s :
  verifyTimestamps (captureAgentId decode st a s) = verifyTimestamps st.
Proof.
  unfold captureAgentId.
  destruct a as [agent|], s as [sig|]; try reflexivity.
  destruct (truthy (Some agent) && truthy (Some sig)); [|reflexivity].
  destruct (decode sig) as [hash|]; [|reflexivity].
  now destruct (truthy (Some hash)).
Qed.

Lemma captureAgentId_keeps st a s h :
  is_Some (txAgentMap st !! h) ->
  is_Some (txAgentMap (captureAgentId decode st a s) !! h).
Proof.
  intros Hsome. unfold captureAgentId.
  destruct a as [agent|], s as [sig|]; try exact Hsome.
  destruct (truthy (Some agent) && truthy (Some sig)); [|exact Hsome].
  destruct (decode sig) as [hash|]; [|exact Hsome].
  destruct (truthy (Some hash)); [|exact Hsome].
  cbn [txAgentMap]. destruct (decide (hash = h)) as [->|Hne].
  - rewrite lookup_insert_eq. eauto.
  - now rewrite lookup_insert_ne by exact Hne.
Qed.

(** An operation that does not touch [h] keeps its verify time. *)
Lemma untouched_keeps_stamp st o h tv :
  verifyTimestamps st !! h = Some tv ->
  ~ touches h (tv + EVICTION_AGE_MS) o ->
  verifyTimestamps (apply_op decode pathname st o).1 !! h = Some tv.
Proof.
  intros Hts Hno.
  destruct o as [now|a s|h' amt payTo v now t|h' url now t1 t2|h' m t|h' m t];
    cbn [apply_op fst touches] in *.
  - pose proof (sweep_lookup now st h) as Hs. rewrite Hts in Hs.
    assert (Hfresh : aged now tv = false).
    { unfold aged. apply Z.ltb_ge. lia. }
    rewrite Hfresh in Hs. apply Hs.
  - now rewrite captureAgentId_timestamps.
  - unfold onAfterVerify. destruct v; cbn [negb extractTx fst verifyTimestamps].
    + rewrite lookup_insert_ne by exact Hno. exact Hts.
    + exact Hts.
  - unfold onAfterSettle. cbn [extractTx fst verifyTimestamps].
    rewrite lookup_delete_ne by exact Hno. exact Hts.
  - exact Hts.
  - exact Hts.
Qed.

Lemma untouched_run_keeps_stamp ops : forall st h tv,
  verifyTimestamps st !! h = Some tv ->
  Forall (fun o => ~ touches h (tv + EVICTION_AGE_MS) o) ops ->
  verifyTimestamps (run_ops decode pathname st ops) !! h = Some tv.
Proof.
  induction ops as [|o ops IH]; intros st h tv Hts Hall; [exact Hts|].
  apply Forall_cons in Hall as [Ho Hall].
  cbn [run_ops foldl]. apply IH; [|exact Hall].
  now apply untouched_keeps_stamp.
Qed.

(** An operation that stores no verify time for [h] keeps an agent entry
    that has no verify time. *)
Lemma unstamped_keeps_agent st o h :
  verifyTimestamps st !! h = None -> is_Some (txAgentMap st !! h) ->
  ~ stamps h o ->
  verifyTimestamps (apply_op decode pathname st o).1 !! h = None
  /\ is_Some (txAgentMap (apply_op decode pathname st o).1 !! h).
Proof.
  intros Hts Hagent Hno.
  destruct o as [now|a s|h' amt payTo v now t|h' url now t1 t2|h' m t|h' m t];
    cbn [apply_op fst stamps] in *.
  - pose proof (sweep_lookup now st h) as Hs. rewrite Hts in Hs.
    destruct Hs as [H1 H2]. split; [exact H1|]. now rewrite H2.
  - rewrite captureAgentId_timestamps. split; [exact Hts|].
    now apply captureAgentId_keeps.
  - unfold onAfterVerify. destruct v; cbn [negb extractTx fst verifyTimestamps txAgentMap].
    + rewrite lookup_insert_ne by exact Hno. now split.
    + now split.
  - unfold onAfterSettle. cbn [extractTx fst verifyTimestamps txAgentMap].
    split; [|exact Hagent].
    destruct (decide (h' = h)) as [->|Hne].
    + now rewrite lookup_delete_eq.
    + now rewrite lookup_delete_ne by exact Hne.
  - now split.
  - now split.
Qed.

(** X14.  The latency reported after settle is the time since the hook
    after the valid verify of the same hash, as long as nothing touched
    that hash in between and every sweep ran at most five minutes after
    the verify; settling the same hash once more reports 0. *)
Theorem settle_latency_since_verify st h amt payTo tv t ops url ts t1 t2 :
  tv <> 0 ->
  Forall (fun o => ~ touches h (tv + EVICTION_AGE_MS) o) ops ->
  let st1 := (onAfterVerify st h amt payTo true tv t).1 in
  let st2 := run_ops decode pathname st1 ops in
  latencyMs <$> (onAfterSettle pathname st2 h url ts t1 t2).2
    = [Some (ts - tv); Some (ts - tv)]
  /\ forall url' ts' t1' t2',
       latencyMs <$> (onAfterSettle pathname
                        (onAfterSettle pathname st2 h url ts t1 t2).1
                        h url' ts' t1' t2').2
       = [Some 0; Some 0].
Proof.
  intros Htv Hall st1 st2.
  assert (Hst1 : verifyTimestamps st1 !! h = Some tv).
  { subst st1. unfold onAfterVerify. cbn [negb extractTx fst verifyTimestamps].
    now rewrite lookup_insert_eq. }
  assert (Hst2 : verifyTimestamps st2 !! h = Some tv)
    by (subst st2; now apply untouched_run_keeps_stamp).
  split.
  - unfold onAfterSettle. cbn [extractTx snd fmap list_fmap latencyMs
      paymentConfirmed requestServed].
    rewrite Hst2. unfold latency_since.
    destruct (Z.eqb_spec tv 0); [contradiction|reflexivity].
  - intros url' ts' t1' t2'.
    unfold onAfterSettle. cbn [extractTx fst snd fmap list_fmap latencyMs
      paymentConfirmed requestServed verifyTimestamps].
    now rewrite lookup_delete_eq.
Qed.

(** X15.  [onAfterSettle] clears the verify time of the hash but not its
    agent entry, and a sweep deletes agent entries only together with a
    verify time: once a hash is settled, its entry in [txAgentMap] stays
    through every later sweep and hook until a valid verify of the same
    hash is recorded again. *)
Theorem agent_entry_outlives_settle st h url now t1 t2 ops :
  is_Some (txAgentMap st !! h) ->
  Forall (fun o => ~ stamps h o) ops ->
  is_Some (txAgentMap
             (run_ops decode pathname (onAfterSettle pathname st h url now t1 t2).1 ops)
           !! h).
Proof.
  intros Hagent Hall.
  set (st1 := (onAfterSettle pathname st h url now t1 t2).1).
  assert (Hinv : verifyTimestamps st1 !! h = None /\ is_Some (txAgentMap st1 !! h)).
  { subst st1. unfold onAfterSettle. cbn [extractTx fst verifyTimestamps txAgentMap].
    split; [now rewrite lookup_delete_eq|exact Hagent]. }
  clearbody st1. clear Hagent. revert st1 Hinv.
  induction ops as [|o ops IH]; intros st1 [Hts Hagent]; [exact Hagent|].
  apply Forall_cons in Hall as [Ho Hall].
  cbn [run_ops foldl]. apply (IH Hall).
  now apply unstamped_keeps_agent.
Qed.

(** X16.  A sweep later than five minutes after the verify removes both
    entries of the hash: the hooks after settle then report latency 0 and
    name the agent by the first ten characters of the hash. *)
Theorem swept_payment_settles_blind st h tv now url ts t1 t2 :
  verifyTimestamps st !! h = Some tv ->
  EVICTION_AGE_MS < now - tv ->
  (onAfterSettle pathname (sweep now st) h url ts t1 t2).2
  = [paymentConfirmed t1 (str_slice 0 10 h) h (Some 0);
     requestServed t2 (str_slice 0 10 h) (extractEndpoint pathname url) 0 (Some h)].
Proof.
  intros Hts Hold.
  pose proof (sweep_lookup now st h) as Hs. rewrite Hts in Hs.
  assert (Haged : aged now tv = true) by (unfold aged; apply Z.ltb_lt; lia).
  rewrite Haged in Hs. destruct Hs as [H1 H2].
  unfold onAfterSettle, extractTx. cbn [snd]. rewrite H1, H2. reflexivity.
Qed.

End HookMaps.

Section HookWitnesses.
Import JS Events EventQueries Hooks.

Lemma settle_latency_since_verify_witness :
  let st1 := (onAfterVerify init "0xabc" "100" "0x01" true 1000 1001).1 in
  let ops := [Sweep 60000; Capture (Some "agent-2") (Some "0xdef");
              AfterVerify "0xdef" "100" "0x01" true 2000 2001] in
  latencyMs <$> (onAfterSettle pathname_plain
                   (run_ops decode_plain pathname_plain st1 ops)
                   "0xabc" None 1500 1501 1502).2
  = [Some 500; Some 500].
Proof.
  intros st1 ops.
  refine (proj1 (settle_latency_since_verify decode_plain pathname_plain
                   init "0xabc" "100" "0x01" 1000 1001 ops None 1500 1501 1502 _ _)).
  - discriminate.
  - repeat constructor; cbn; solve [lia | discriminate].
Defined.

Lemma agent_entry_outlives_settle_witness :
  let st := captureAgentId decode_plain init (Some "agent-1") (Some "0xabc") in
  is_Some (txAgentMap
             (run_ops decode_plain pathname_plain
                (onAfterSettle pathname_plain st "0xabc" None 1500 1501 1502).1
                [Sweep 1000000; Sweep 2000000])
           !! "0xabc"%string).
Proof.
  intros st.
  apply (agent_entry_outlives_settle decode_plain pathname_plain st "0xabc" None
           1500 1501 1502 [Sweep 1000000; Sweep 2000000]).
  - vm_compute. eauto.
  - repeat constructor; cbn; tauto.
Defined.

Lemma swept_payment_settles_blind_witness :
  let st := (onAfterVerify
               (captureAgentId decode_plain init (Some "agent-1")
                  (Some "0xabcdef0123456789"))
               "0xabcdef0123456789" "100" "0x01" true 1000 1001).1 in
  (onAfterSettle pathname_plain (sweep 400000 st) "0xabcdef0123456789" None
     400500 400501 400502).2
  = [paymentConfirmed 400501 "0xabcdef01" "0xabcdef0123456789" (Some 0);
     requestServed 400502 "0xabcdef01" "unknown" 0 (Some "0xabcdef0123456789"%string)].
Proof.
  intros st.
  apply (swept_payment_settles_blind pathname_plain st "0xabcdef0123456789" 1000
           400000 None 400500 400501 400502).
  - vm_compute. reflexivity.
  - vm_compute. reflexivity.
Defined.

End HookWitnesses.

(** ** The collector: totals, buffer and percentiles *)
Section CollectorTotals.
Import JS Metrics Collector.

Lemma foldl_add_acc l : forall a, foldl Z.add a l = a + foldl Z.add 0 l.
Proof.
  induction l as [|x l IH]; intros a; cbn [foldl]; [lia|].
  rewrite (IH (a + x)), (IH (0 + x)). lia.
Qed.

Lemma sum_cons x l : sum (x :: l) = x + sum l.
Proof. unfold sum. cbn [foldl]. rewrite foldl_add_acc. lia. Qed.

Lemma sum_insert l : forall j x y,
  l !! j = Some x -> sum (<[j := y]> l) = sum l - x + y.
Proof.
  induction l as [|a l IH]; intros [|j] x y Hx; try discriminate.
  - injection Hx as ->. cbn [insert list_insert]. rewrite !sum_cons. lia.
  - cbn [lookup list_lookup] in Hx. cbn [insert list_insert].
    change (list_insert j y l) with (<[j := y]> l).
    rewrite !sum_cons, (IH _ _ _ Hx). lia.
Qed.

Lemma sum_split {A} (f g h : A -> Z) (l : list A) :
  Forall (fun a => f a = g a + h a) l ->
  sum (f <$> l) = sum (g <$> l) + sum (h <$> l).
Proof.
  induction 1 as [|a l Ha _ IH]; [reflexivity|].
  cbn [fmap list_fmap]. change (list_fmap _ _ ?f l) with (f <$> l).
  rewrite !sum_cons, IH, Ha. lia.
Qed.

Lemma sum_nonneg {A} (f : A -> Z) (l : list A) :
  Forall (fun a => 0 <= f a) l -> 0 <= sum (f <$> l).
Proof.
  induction 1 as [|a l Ha _ IH]; [reflexivity|].
  cbn [fmap list_fmap]. change (list_fmap _ _ ?f l) with (f <$> l).
  rewrite sum_cons. lia.
Qed.

(** The sum of a field over the agents when one entry is replaced. *)
Lemma sum_agents_insert (f : AgentMetrics -> Z) (M : gmap string AgentMetrics) id m m' :
  M !! id = Some m ->
  sum (f <$> (map_to_list (<[id := m']> M)).*2)
  = sum (f <$> (map_to_list M).*2) - f m + f m'.
Proof.
  intros Hm.
  assert (Hin : (id, m) ∈ map_to_list M) by now apply elem_of_map_to_list.
  apply list_elem_of_lookup in Hin as [j Hj].
  rewrite (map_to_list_update M j id m m' Hj).
  rewrite !list_fmap_insert. cbn [snd].
  apply sum_insert. rewrite !list_lookup_fmap, Hj. reflexivity.
Qed.

Lemma counters_add_up_reachable st : reachable st -> counters_add_up st.
Proof.
  induction 1 as [|st now _ IH|st id addr _ IH|st result _ IH|st id b _ IH|st now _ IH];
    intros i m Hm.
  - cbn in Hm. now rewrite lookup_empty in Hm.
  - exact (IH i m Hm).
  - cbn [registerAgent agentMetrics] in Hm.
    destruct (decide (id = i)) as [->|Hne].
    + rewrite lookup_insert_eq in Hm. injection Hm as <-. cbn. lia.
    + rewrite lookup_insert_ne in Hm by exact Hne. exact (IH i m Hm).
  - unfold recordRequest in Hm.
    destruct (agentMetrics st !! agentId result) as [m0|] eqn:Hm0; [|exact (IH i m Hm)].
    cbn [agentMetrics] in Hm.
    destruct (decide (agentId result = i)) as [Heq|Hne].
    + rewrite Heq, lookup_insert_eq in Hm. injection Hm as <-.
      destruct (IH _ _ Hm0) as (H1 & H2 & H3).
      unfold bump. cbn [totalRequests successfulRequests failedRequests].
      destruct (success result); lia.
    + rewrite lookup_insert_ne in Hm by exact Hne. exact (IH i m Hm).
  - unfold updateAgentBalance in Hm.
    destruct (agentMetrics st !! id) as [m0|] eqn:Hm0; [|exact (IH i m Hm)].
    cbn [agentMetrics] in Hm.
    destruct (decide (id = i)) as [->|Hne].
    + rewrite lookup_insert_eq in Hm. injection Hm as <-.
      exact (IH _ _ Hm0).
    + rewrite lookup_insert_ne in Hm by exact Hne. exact (IH i m Hm).
  - exact (IH i m Hm).
Qed.

Lemma latencies_bound_reachable st :
  reachable st -> Z.of_nat (length (latencies st)) <= MAX_SAMPLES.
Proof.
  induction 1 as [|st now _ IH|st id addr _ IH|st result _ IH|st id b _ IH|st now _ IH].
  - cbn. unfold MAX_SAMPLES. lia.
  - cbn. unfold MAX_SAMPLES. lia.
  - exact IH.
  - now apply recordRequest_latencies_bound.
  - unfold updateAgentBalance. now destruct (agentMetrics st !! id).
  - exact IH.
Qed.

(** X17.  In every state of a collector the pool totals add up: total =
    successful + failed, with no negative counter, whatever was
    registered, recorded or reset before. *)
Theorem pool_totals_add_up st now :
  reachable st ->
  let m := (getPoolMetrics st now).2 in
  pm_totalRequests m = pm_successfulRequests m + pm_failedRequests m
  /\ 0 <= pm_successfulRequests m /\ 0 <= pm_failedRequests m.
Proof.
  intros Hr. pose proof (counters_add_up_reachable st Hr) as Hinv.
  cbn [getPoolMetrics snd pm_totalRequests pm_successfulRequests pm_failedRequests].
  assert (Hall : Forall (fun a => totalRequests a = successfulRequests a + failedRequests a
                                  /\ 0 <= successfulRequests a /\ 0 <= failedRequests a)
                   (map_to_list (agentMetrics st)).*2).
  { apply Forall_fmap, Forall_forall. intros [i m] Hin.
    apply elem_of_map_to_list in Hin. exact (Hinv i m Hin). }
  split; [|split].
  - apply sum_split. eapply Forall_impl; [exact Hall|]. cbn. tauto.
  - apply sum_nonneg. eapply Forall_impl; [exact Hall|]. cbn. tauto.
  - apply sum_nonneg. eapply Forall_impl; [exact Hall|]. cbn. tauto.
Qed.

Lemma pool_totals_add_up_witness :
  let st := recordRequest (recordRequest two_agents (result_with true "agent-1" 40 10))
              (result_with false "agent-2" 50 20) in
  let m := (getPoolMetrics st 100).2 in
  pm_totalRequests m = 2
  /\ pm_totalRequests m = pm_successfulRequests m + pm_failedRequests m.
Proof.
  intros st m. split; [vm_compute; reflexivity|].
  apply (pool_totals_add_up st 100).
  subst st. unfold two_agents. repeat constructor.
Defined.

(** X18.  Recording the result of a registered agent raises the pool
    total by one, and the successful or the failed count by one according
    to [success]; the other count is unchanged. *)
Theorem record_raises_pool_totals st result now now' :
  known st result ->
  let before := (getPoolMetrics st now).2 in
  let after := (getPoolMetrics (recordRequest st result) now').2 in
  pm_totalRequests after = pm_totalRequests before + 1
  /\ pm_successfulRequests after
     = pm_successfulRequests before + (if success result then 1 else 0)
  /\ pm_failedRequests after
     = pm_failedRequests before + (if success result then 0 else 1).
Proof.
  intros [m Hm].
  cbn [getPoolMetrics snd pm_totalRequests pm_successfulRequests pm_failedRequests].
  unfold recordRequest. rewrite Hm. cbn [agentMetrics].
  rewrite !(sum_agents_insert _ _ _ _ _ Hm).
  unfold bump. cbn [totalRequests successfulRequests failedRequests].
  destruct (success result); repeat split; lia.
Qed.

Lemma record_raises_pool_totals_witness :
  pm_failedRequests
    (getPoolMetrics (recordRequest two_agents (result_with false "agent-2" 50 20)) 100).2
  = pm_failedRequests (getPoolMetrics two_agents 0).2 + 1.
Proof.
  refine (proj2 (proj2 (record_raises_pool_totals two_agents
                          (result_with false "agent-2" 50 20) 0 100 _))).
  vm_compute. eauto.
Defined.

End CollectorTotals.

Section CollectorPercentiles.
Import JS Metrics Collector.

Lemma ceil_div_mono a b c : 0 < c -> a <= b -> ceil_div a c <= ceil_div b c.
Proof.
  intros Hc Hab. unfold ceil_div.
  assert ((- b) / c <= (- a) / c) by (apply Z.div_le_mono; lia). lia.
Qed.

Lemma StronglySorted_lookup_le (l : list Z) :
  StronglySorted Z.le l ->
  forall i j x y, (i <= j)%nat -> l !! i = Some x -> l !! j = Some y -> x <= y.
Proof.
  induction 1 as [|a l _ IH Hall]; intros i j x y Hij Hx Hy; [discriminate|].
  destruct i as [|i], j as [|j]; cbn [lookup list_lookup] in Hx, Hy.
  - injection Hx as <-. injection Hy as <-. lia.
  - injection Hx as <-. rewrite Forall_forall in Hall.
    apply Hall. eapply list_elem_of_lookup_2. exact Hy.
  - lia.
  - apply (IH i j); [lia|assumption|assumption].
Qed.

(** The index that [percentile] reads for 50, 95 and 99. *)
Lemma percentile_rank (sorted : list Z) (p : Z) :
  sorted <> [] -> Z.of_nat (length sorted) <= MAX_SAMPLES -> p ∈ [50; 95; 99] ->
  percentile sorted (number_of_Z p)
  = sorted !! Z.to_nat (Z.max 0 (ceil_div (p * Z.of_nat (length sorted)) 100 - 1))
  /\ (Z.to_nat (Z.max 0 (ceil_div (p * Z.of_nat (length sorted)) 100 - 1))
      < length sorted)%nat.
Proof.
  intros Hne Hmax Hp.
  assert (Hn : 0 < Z.of_nat (length sorted)).
  { destruct sorted; [congruence | cbn [length]; lia]. }
  assert (Hp100 : p <= 100).
  { repeat (apply elem_of_cons in Hp as [-> | Hp]); try lia. now apply elem_of_nil in Hp. }
  pose proof (ceil_div_le_length p (Z.of_nat (length sorted)) Hp100 ltac:(lia)) as Hc.
  pose proof (rank_exact_reported p (Z.of_nat (length sorted)) Hp ltac:(lia)) as Hrank.
  unfold rank_exact in Hrank. unfold percentile.
  destruct (Nat.eqb_spec (length sorted) 0); [lia|].
  destruct (Math_ceil _) as [| |c]; try discriminate Hrank.
  apply Z.eqb_eq in Hrank as ->. cbv zeta.
  split; [reflexivity|lia].
Qed.

(** X19.  The three percentiles that [getPoolMetrics] reports are 0 when
    no latency is held; otherwise each is one of the held latencies and
    p50 <= p95 <= p99. *)
Theorem percentiles_ordered st now :
  reachable st ->
  let m := (getPoolMetrics st now).2 in
  (latencies st = [] ->
     p50LatencyMs m = Some 0 /\ p95LatencyMs m = Some 0 /\ p99LatencyMs m = Some 0)
  /\ (latencies st <> [] ->
      exists a b c,
        p50LatencyMs m = Some a /\ p95LatencyMs m = Some b /\ p99LatencyMs m = Some c
        /\ a <= b <= c
        /\ a ∈ latencies st /\ b ∈ latencies st /\ c ∈ latencies st).
Proof.
  intros Hr. cbv zeta.
  cbn [getPoolMetrics snd p50LatencyMs p95LatencyMs p99LatencyMs].
  split.
  { intros ->. repeat split; reflexivity. }
  intros Hne.
  pose proof (latencies_bound_reachable st Hr) as Hbound.
  pose proof (merge_sort_Permutation Z.le (latencies st)) as Hperm.
  pose proof (StronglySorted_merge_sort Z.le (latencies st)) as Hsorted.
  revert Hperm Hsorted. generalize (merge_sort Z.le (latencies st)).
  intros sorted Hperm Hsorted.
  assert (Hlen : length sorted = length (latencies st))
    by now apply Permutation_length.
  assert (Hne' : sorted <> []).
  { intros ->. apply Permutation_nil_l in Hperm. congruence. }
  change 50%float with (number_of_Z 50).
  change 95%float with (number_of_Z 95).
  change 99%float with (number_of_Z 99).
  destruct (percentile_rank sorted 50 Hne') as [E50 L50];
    [lia | set_solver |].
  destruct (percentile_rank sorted 95 Hne') as [E95 L95];
    [lia | set_solver |].
  destruct (percentile_rank sorted 99 Hne') as [E99 L99];
    [lia | set_solver |].
  destruct (lookup_lt_is_Some_2 _ _ L50) as [a Ha].
  destruct (lookup_lt_is_Some_2 _ _ L95) as [b Hb].
  destruct (lookup_lt_is_Some_2 _ _ L99) as [c Hc].
  exists a, b, c.
  rewrite E50, E95, E99.
  assert (H1 : ceil_div (50 * Z.of_nat (length sorted)) 100
               <= ceil_div (95 * Z.of_nat (length sorted)) 100)
    by (apply ceil_div_mono; lia).
  assert (H2 : ceil_div (95 * Z.of_nat (length sorted)) 100
               <= ceil_div (99 * Z.of_nat (length sorted)) 100)
    by (apply ceil_div_mono; lia).
  repeat split; try assumption.
  - refine (StronglySorted_lookup_le sorted Hsorted _ _ a b _ Ha Hb). lia.
  - refine (StronglySorted_lookup_le sorted Hsorted _ _ b c _ Hb Hc). lia.
  - rewrite <- Hperm. eapply list_elem_of_lookup_2. exact Ha.
  - rewrite <- Hperm. eapply list_elem_of_lookup_2. exact Hb.
  - rewrite <- Hperm. eapply list_elem_of_lookup_2. exact Hc.
Qed.

Lemma percentiles_ordered_witness :
  let st := foldl recordRequest two_agents
              [result_with true "agent-1" 70 10; result_with true "agent-2" 20 20;
               result_with false "agent-1" 300 30; result_with true "agent-2" 45 40] in
  let m := (getPoolMetrics st 100).2 in
  latencies st = [70; 20; 300; 45]
  /\ exists a b c,
       p50LatencyMs m = Some a /\ p95LatencyMs m = Some b /\ p99LatencyMs m = Some c
       /\ a <= b <= c
       /\ a ∈ latencies st /\ b ∈ latencies st /\ c ∈ latencies st.
Proof.
  intros st m.
  assert (Hr : reachable st).
  { subst st. unfold two_agents. cbn [foldl]. repeat constructor. }
  split; [vm_compute; reflexivity|].
  apply (proj2 (percentiles_ordered st 100 Hr)).
  vm_compute. discriminate.
Defined.

(** X20.  The latency buffer of a collector never holds more than 10000
    samples; a recorded latency is appended, and when that makes 10001
    the newest 5000 are kept. *)
Theorem latency_buffer_keeps_newest st result :
  reachable st -> known st result ->
  let lat := latencies (recordRequest st result) in
  Z.of_nat (length (latencies st)) <= MAX_SAMPLES
  /\ (Z.of_nat (length (latencies st)) < MAX_SAMPLES ->
      lat = latencies st ++ [latencyMs result])
  /\ (Z.of_nat (length (latencies st)) = MAX_SAMPLES ->
      lat = slice_last 5000 (latencies st ++ [latencyMs result])
      /\ length lat = 5000%nat)
  /\ lat `suffix_of` (latencies st ++ [latencyMs result]).
Proof.
  intros Hr [m Hm]. cbv zeta.
  pose proof (latencies_bound_reachable st Hr) as Hb.
  unfold recordRequest. rewrite Hm. cbn [latencies].
  unfold MAX_SAMPLES in *.
  rewrite length_app. cbn [length].
  split; [exact Hb|].
  destruct (Z.ltb_spec 10000 (Z.of_nat (length (latencies st) + 1))) as [Hfull|Hroom].
  - split; [lia|]. split.
    + intros _. split; [reflexivity|].
      rewrite slice_last_length, length_app. cbn [length]. lia.
    + apply slice_last_suffix.
  - split; [reflexivity|]. split; [lia|reflexivity].
Qed.

Lemma reachable_records results : forall st,
  reachable st -> reachable (foldl recordRequest st results).
Proof.
  induction results as [|r results IH]; intros st Hr; [exact Hr|].
  cbn [foldl]. apply IH. now constructor.
Qed.

Lemma known_records results : forall st r,
  known st r -> known (foldl recordRequest st results) r.
Proof.
  induction results as [|r0 results IH]; intros st r Hk; [exact Hk|].
  cbn [foldl]. apply IH. unfold known in *. now apply recordRequest_agents.
Qed.

(** While the buffer has room, the latencies of registered agents are
    appended in the order in which they are recorded. *)
Lemma latencies_records results : forall st,
  Forall (known st) results ->
  Z.of_nat (length (latencies st) + length results) <= MAX_SAMPLES ->
  latencies (foldl recordRequest st results)
  = latencies st ++ (latencyMs <$> results).
Proof.
  induction results as [|r results IH]; intros st Hall Hroom.
  - cbn. now rewrite app_nil_r.
  - apply Forall_cons in Hall as [[m Hm] Hall]. cbn [foldl length] in *.
    assert (Hstep : latencies (recordRequest st r) = latencies st ++ [latencyMs r]).
    { unfold recordRequest. rewrite Hm. cbn [latencies].
      rewrite length_app. cbn [length]. unfold MAX_SAMPLES in Hroom.
      destruct (Z.ltb_spec 10000 (Z.of_nat (length (latencies st) + 1)));
        [lia|reflexivity]. }
    rewrite IH.
    + rewrite Hstep, <- app_assoc. reflexivity.
    + eapply Forall_impl; [exact Hall|]. intros r' Hk. unfold known in *.
      now apply recordRequest_agents.
    + rewrite Hstep, length_app. cbn [length]. lia.
Qed.

Lemma count_up_length n : forall from, length (count_up n from) = n.
Proof. induction n as [|n IH]; intros from; cbn [count_up length]; auto. Qed.

Lemma latency_buffer_keeps_newest_witness :
  let lat := latencies (recordRequest full_buffer (result_with true "agent-1" 70 20000)) in
  Z.of_nat (length (latencies full_buffer)) = MAX_SAMPLES
  /\ lat = count_up (Z.to_nat 4999) 5002 ++ [70]
  /\ length lat = 5000%nat.
Proof.
  intros lat.
  assert (Hr : reachable full_buffer).
  { apply reachable_records. unfold two_agents. repeat constructor. }
  assert (Hone : forall i t, known two_agents (result_with true "agent-1" i t)).
  { intros i t. vm_compute. eexists. reflexivity. }
  assert (Hk : known full_buffer (result_with true "agent-1" 70 20000)).
  { apply known_records, Hone. }
  assert (Hlat : latencies full_buffer = count_up (Z.to_nat 10000) 1).
  { unfold full_buffer. rewrite latencies_records.
    - cbn [two_agents start latencies app]. rewrite <- list_fmap_compose.
      apply list_fmap_id.
    - apply Forall_fmap, Forall_forall. intros i _. apply Hone.
    - rewrite length_fmap, count_up_length. vm_compute. discriminate. }
  assert (Hfull : Z.of_nat (length (latencies full_buffer)) = MAX_SAMPLES).
  { rewrite Hlat, count_up_length. reflexivity. }
  destruct (latency_buffer_keeps_newest full_buffer
              (result_with true "agent-1" 70 20000) Hr Hk) as (_ & _ & Hcut & _).
  destruct (Hcut Hfull) as [Heq Hlen].
  split; [exact Hfull|]. split; [|exact Hlen].
  subst lat. rewrite Heq, Hlat. vm_compute. reflexivity.
Defined.

End CollectorPercentiles.

(** ** The agent: what a rejected send does to the counter *)
Section AgentErrors.
Import JS Agent.
Variable keccak256 : string -> string.

Lemma prefix_ci_app_l p : forall q s,
  prefix_ci (p +:+ q) s = true -> prefix_ci p s = true.
Proof.
  induction p as [|c p IH]; intros q s H; [reflexivity|].
  rewrite append_cons in H. destruct s as [|b s]; [discriminate H|].
  cbn [prefix_ci] in *. destruct (Ascii.eqb (to_lower c) (to_lower b)); [|discriminate H].
  now apply (IH q).
Qed.

Lemma test_ci_cons pat c s :
  test_ci pat (String c s) = prefix_ci pat (String c s) || test_ci pat s.
Proof. reflexivity. Qed.

Lemma prefix_ci_test_ci pat s : prefix_ci pat s = true -> test_ci pat s = true.
Proof. intros H. destruct s; cbn [test_ci]; now rewrite H. Qed.

Lemma prefix_ci_app_r p : forall q s,
  prefix_ci (p +:+ q) s = true -> test_ci q s = true.
Proof.
  induction p as [|c p IH]; intros q s H.
  - now apply prefix_ci_test_ci.
  - rewrite append_cons in H. destruct s as [|b s]; [discriminate H|].
    cbn [prefix_ci] in H.
    destruct (Ascii.eqb (to_lower c) (to_lower b)); [|discriminate H].
    rewrite test_ci_cons, (IH q s H). apply orb_true_r.
Qed.

Lemma test_ci_nil pat : test_ci pat EmptyString = prefix_ci pat EmptyString || false.
Proof. reflexivity. Qed.

Lemma test_ci_app_l p q s : test_ci (p +:+ q) s = true -> test_ci p s = true.
Proof.
  induction s as [|c s IH].
  - rewrite !test_ci_nil, !orb_false_r. apply prefix_ci_app_l.
  - rewrite !test_ci_cons. intros H. apply orb_true_iff in H as [H|H].
    + apply prefix_ci_app_l in H. now rewrite H.
    + rewrite (IH H). apply orb_true_r.
Qed.

Lemma test_ci_app_r p q s : test_ci (p +:+ q) s = true -> test_ci q s = true.
Proof.
  induction s as [|c s IH].
  - rewrite test_ci_nil, orb_false_r. apply prefix_ci_app_r.
  - rewrite (test_ci_cons (p +:+ q)). intros H. apply orb_true_iff in H as [H|H].
    + now apply prefix_ci_app_r in H.
    + rewrite test_ci_cons, (IH H). apply orb_true_r.
Qed.

(** A text that matches a pattern matches every part of the pattern. *)
Lemma test_ci_infix p q r s :
  test_ci (p +:+ q +:+ r) s = true -> test_ci q s = true.
Proof. intros H. apply test_ci_app_r in H. now apply test_ci_app_l in H. Qed.

Lemma step_keeps_nonce st w e st' os :
  step keccak256 st w e = Some (st', os) ->
  is_Some (nextNonce st) -> is_Some (nextNonce st').
Proof.
  unfold step. intros Hstep Hn.
  destruct (workers st !! w) as [[| |m| |h]|]; destruct e; try discriminate Hstep.
  - destruct (nextNonce st); injection Hstep as <- <-; cbn; eauto.
    destruct Hn as [x Hx]. discriminate Hx.
  - injection Hstep as <- <-. cbn. eauto.
  - injection Hstep as <- <-. exact Hn.
  - injection Hstep as <- <-. exact Hn.
  - unfold on_send_error in Hstep.
    repeat match type of Hstep with
           | context [if ?b then _ else _] => destruct b
           | context [match ?b with Some _ => _ | None => _ end] => destruct b
           end;
      injection Hstep as <- <-; cbn; eauto.
  - injection Hstep as <- <-. cbn. eauto.
  - injection Hstep as <- <-. exact Hn.
  - injection Hstep as <- <-. exact Hn.
  - injection Hstep as <- <-. exact Hn.
Qed.

(** X21.  Once the counter of an agent is set it stays set under every
    schedule: no later call of [submitPayment] waits for
    [getTransactionCount] before it claims, and only the first calls,
    made while the counter is [null], do. *)
Theorem counter_stays_set sched : forall st st' os,
  is_Some (nextNonce st) ->
  run keccak256 st sched = Some (st', os) ->
  is_Some (nextNonce st')
  /\ forall w, workers st' !! w = Some AtInitCount -> workers st !! w = Some AtInitCount.
Proof.
  induction sched as [|[w e] sched IH]; intros st st' os Hn Hrun.
  - injection Hrun as <- <-. split; [exact Hn|tauto].
  - cbn [run] in Hrun.
    destruct (step keccak256 st w e) as [[st1 o1]|] eqn:Hstep; [|discriminate Hrun].
    destruct (run keccak256 st1 sched) as [[st2 o2]|] eqn:Hrest; [|discriminate Hrun].
    injection Hrun as <- <-.
    pose proof (step_keeps_nonce _ _ _ _ _ Hstep Hn) as Hn1.
    destruct (IH _ _ _ Hn1 Hrest) as [Hn2 Hw2].
    split; [exact Hn2|].
    intros w' Hw'. specialize (Hw2 w' Hw').
    assert (Hstep1 : forall p, (forall st0, p <> AtInitCount ->
              workers (set_pc st0 w p) !! w' = Some AtInitCount ->
              workers st0 !! w' = Some AtInitCount)).
    { intros p st0 Hp Hl. cbn [set_pc workers] in Hl.
      destruct (decide (w = w')) as [->|Hne].
      - apply list_lookup_insert_Some in Hl as [(_ & Heq & _)|(Hne & _)];
          [now destruct (Hp Heq) | now destruct Hne].
      - now rewrite list_lookup_insert_ne in Hl by exact Hne. }
    destruct Hn as [n Hn].
    unfold step in Hstep.
    destruct (workers st !! w) as [[| |m| |h]|] eqn:Hw; destruct e; try discriminate Hstep.
    + rewrite Hn in Hstep. injection Hstep as <- <-.
      now apply (Hstep1 (AtSend n) (set_nonce st (Some (n + 1)))).
    + injection Hstep as <- <-.
      now apply (Hstep1 (AtSend count) (set_nonce (set_nonce st (Some count)) (Some (count + 1)))).
    + injection Hstep as <- <-. now apply (Hstep1 Outside st).
    + injection Hstep as <- <-. now apply (Hstep1 (AtReceipt hash) st).
    + unfold on_send_error in Hstep.
      repeat match type of Hstep with
             | context [if ?b then _ else _] => destruct b
             | context [match ?b with Some _ => _ | None => _ end] => destruct b
             end;
        injection Hstep as <- <-;
        first [ now apply (Hstep1 (AtReceipt (keccak256 s)) st)
              | now apply (Hstep1 AtResync st)
              | now apply (Hstep1 Outside (set_nonce st (Some m)))
              | now apply (Hstep1 Outside st) ].
    + injection Hstep as <- <-. now apply (Hstep1 Outside (set_nonce st (Some count))).
    + injection Hstep as <- <-. now apply (Hstep1 Outside st).
    + injection Hstep as <- <-. now apply (Hstep1 Outside st).
    + injection Hstep as <- <-. now apply (Hstep1 Outside st).
Qed.

(** X22.  A send that fails with an error that names neither a nonce
    nor the mempool sets the counter back to the nonce of that send,
    whatever the counter had become: the worker throws, its next call
    claims the same nonce again, and the counter is that nonce plus one
    afterwards. *)
Theorem rollback_restarts_at_failed_nonce st w n msg :
  workers st !! w = Some (AtSend n) ->
  test_ci "nonce" msg = false ->
  test_ci "already in mempool" msg = false ->
  test_ci "already known" msg = false ->
  exists st',
    run keccak256 st [(w, SendRejected msg); (w, Call)]
      = Some (st', [Threw w; Claimed w n])
    /\ nextNonce st' = Some (n + 1).
Proof.
  intros Hw Hnonce Hpool Hknown.
  assert (Hdup : test_ci "transaction already in mempool" msg = false).
  { destruct (test_ci "transaction already in mempool" msg) eqn:H; [|reflexivity].
    apply (test_ci_infix "transaction " "already in mempool" EmptyString) in H. congruence. }
  assert (Hhigh : test_ci "nonce too high" msg = false).
  { destruct (test_ci "nonce too high" msg) eqn:H; [|reflexivity].
    apply (test_ci_infix EmptyString "nonce" " too high") in H. congruence. }
  cbn [run]. unfold step at 1. rewrite Hw.
  unfold on_send_error. rewrite Hdup, Hknown, Hhigh, Hnonce, Hpool.
  cbn [orb negb andb].
  unfold step. cbn [set_pc set_nonce workers nextNonce].
  rewrite list_lookup_insert_eq by (eapply lookup_lt_Some; exact Hw).
  cbn [claim]. eexists. split; [reflexivity|reflexivity].
Qed.

End AgentErrors.

Section AgentErrorWitnesses.
Import JS Agent.

Lemma counter_stays_set_witness :
  exists st os,
    run (fun raw => raw) counting_from_7
      [(0%nat, Call); (0%nat, SendRejected "nonce too high"); (1%nat, Call);
       (0%nat, CountResolved 3)] = Some (st, os)
    /\ is_Some (nextNonce st).
Proof.
  eexists _, _. split; [vm_compute; reflexivity|].
  refine (proj1 (counter_stays_set (fun raw => raw)
                   [(0%nat, Call); (0%nat, SendRejected "nonce too high"); (1%nat, Call);
                    (0%nat, CountResolved 3)] counting_from_7 _ _ _ _)).
  - cbn. eauto.
  - vm_compute. reflexivity.
Defined.

Lemma rollback_restarts_at_failed_nonce_witness :
  exists st st',
    run (fun raw => raw) counting_from_7 [(0%nat, Call); (1%nat, Call); (2%nat, Call)]
      = Some (st, [Claimed 0 7; Claimed 1 8; Claimed 2 9])
    /\ nextNonce st = Some 10
    /\ run (fun raw => raw) st [(0%nat, SendRejected "socket hang up"); (0%nat, Call)]
       = Some (st', [Threw 0; Claimed 0 7])
    /\ nextNonce st' = Some 8.
Proof.
  eexists _.
  assert (Hrun : run (fun raw => raw) counting_from_7
                   [(0%nat, Call); (1%nat, Call); (2%nat, Call)]
                 = Some ({| nextNonce := Some 10;
                            workers := [AtSend 7; AtSend 8; AtSend 9; Outside; Outside] |},
                         [Claimed 0 7; Claimed 1 8; Claimed 2 9]))
    by (vm_compute; reflexivity).
  destruct (rollback_restarts_at_failed_nonce (fun raw => raw)
              {| nextNonce := Some 10;
                 workers := [AtSend 7; AtSend 8; AtSend 9; Outside; Outside] |}
              0%nat 7 "socket hang up")
    as (st' & Hst' & Hn'); try (vm_compute; reflexivity).
  exists st'. split; [exact Hrun|]. split; [reflexivity|]. split; assumption.
Defined.

End AgentErrorWitnesses.

(** ** Validation of the simulator's configuration *)
Section ConfigChecks.
Import JS Config.

Lemma push_if_nil cond msg errors :
  push_if cond msg errors = [] <-> cond = false /\ errors = [].
Proof.
  unfold push_if. destruct cond.
  - split; [|intros [[=] _]]. intros H. now apply app_nil in H as [_ [=]].
  - tauto.
Qed.

Lemma push_if_elem x cond msg errors :
  x ∈ push_if cond msg errors -> x = msg \/ x ∈ errors.
Proof.
  unfold push_if. destruct cond; [|tauto].
  intros Hin. apply elem_of_app in Hin as [Hin|Hin]; [now right|].
  apply list_elem_of_singleton in Hin. now left.
Qed.

Lemma validateConfig_nil config :
  validateConfig config = [] <->
  num_lt (agentCount config) 1 = false
  /\ num_gt (agentCount config) 5000 = false
  /\ num_lt (requestsPerSecond config) 1 = false
  /\ num_gt (requestsPerSecond config) 10000 = false
  /\ (fundingAmount config <=? 0) = false
  /\ String.prefix "http" (serverUrl config) = true
  /\ String.prefix "http" (evolveRpcUrl config) = true
  /\ String.prefix "0x" (faucetPrivateKey config) = true
  /\ (totalWeight (endpoints config) <=? 0) = false.
Proof.
  unfold validateConfig. cbv zeta.
  rewrite !push_if_nil, !negb_false_iff. tauto.
Qed.

Lemma num_in_range x lo hi :
  num_lt x lo = false /\ num_gt x hi = false <->
  match x with Some n => lo <= n <= hi | None => True end.
Proof.
  destruct x as [n|]; cbn [num_lt num_gt]; [|tauto].
  rewrite !Z.ltb_ge. lia.
Qed.

(** X23.  [main] goes on, with no configuration error, exactly when the
    funding is a positive integer literal, both URLs start with "http",
    the faucet key starts with "0x", and each of the two counts is either
    in its range (1..5000 agents, 1..10000 requests per second) or not a
    number at all: a count that [parseInt] reads as [NaN] passes both of
    its checks.  With the default endpoints the weight check never
    fails. *)
Theorem main_accepts_iff agentsArg rpsArg serverArg rpcArg fundingArg keyArg env errors :
  main_errors agentsArg rpsArg serverArg rpcArg fundingArg keyArg env = Some errors ->
  (errors = [] <->
   match parseInt10 agentsArg with Some n => 1 <= n <= 5000 | None => True end
   /\ match parseInt10 rpsArg with Some n => 1 <= n <= 10000 | None => True end
   /\ (exists amount, BigInt_of_string fundingArg = Some amount /\ 0 < amount)
   /\ String.prefix "http" serverArg = true
   /\ String.prefix "http" rpcArg = true
   /\ exists key, (match keyArg with Some k => Some k | None => env end) = Some key
                  /\ String.prefix "0x" key = true)
  /\ ~ "Endpoint weights must sum to a positive number"%string ∈ errors.
Proof.
  unfold main_errors, createPoolConfig. cbv zeta. cbn [faucetKey funding].
  destruct (match keyArg with Some k => Some k | None => env end) as [[|c key]|];
    try discriminate.
  destruct (BigInt_of_string fundingArg) as [amount|]; [|discriminate].
  cbn [mbind option_bind fmap option_fmap option_map].
  intros [= <-]. split.
  - rewrite validateConfig_nil.
    cbn [agentCount requestsPerSecond fundingAmount serverUrl evolveRpcUrl
         faucetPrivateKey endpoints agents rps server evolveRpc].
    change (totalWeight DEFAULT_ENDPOINTS <=? 0) with false.
    rewrite <- !num_in_range, Z.leb_gt.
    split.
    + intros (H1 & H2 & H3 & H4 & H5 & H6 & H7 & H8 & _).
      repeat split; try assumption; eauto.
    + intros ([H1 H2] & [H3 H4] & (a & [= <-] & H5) & H6 & H7 & (k & [= <-] & H8)).
      repeat split; assumption.
  - unfold validateConfig. cbv zeta.
    cbn [agentCount requestsPerSecond fundingAmount serverUrl evolveRpcUrl
         faucetPrivateKey endpoints agents rps server evolveRpc].
    change (totalWeight DEFAULT_ENDPOINTS <=? 0) with false.
    cbn [push_if]. intros Hin.
    repeat (apply push_if_elem in Hin as [Hin|Hin]; [discriminate Hin|]).
    now apply elem_of_nil in Hin.
Qed.

Lemma main_accepts_iff_witness :
  exists errors,
    main_errors "abc" "10" "http://localhost:3000" "http://localhost:8545" "1000000"
      None (Some "0xac09") = Some errors
    /\ errors = [].
Proof.
  eexists. split; [vm_compute; reflexivity|].
  refine (proj2 (proj1 (main_accepts_iff "abc" "10" "http://localhost:3000"
                          "http://localhost:8545" "1000000" None (Some "0xac09") [] _)) _).
  - vm_compute. reflexivity.
  - repeat split; try (vm_compute; reflexivity); try (vm_compute; discriminate).
    + exists 1000000. split; [vm_compute; reflexivity|lia].
    + exists "0xac09"%string. split; reflexivity.
Defined.

End ConfigChecks.

(** ** The dashboard *)
Section DashboardCounters.
Import JS Events Dashboard.

Lemma with_processed_same c : with_processed c (processedCount c) = c.
Proof. now destruct c. Qed.

(** Nothing is processed when the buffer is as long as the number of
    events already processed. *)
Lemma effect_same_length clock tps c events :
  length events = processedCount c -> effect clock tps c events = (c, None).
Proof.
  intros Hlen. unfold effect. cbv zeta. rewrite <- Hlen.
  rewrite Nat.ltb_irrefl, drop_all. cbn [process_from].
  rewrite Hlen. now rewrite with_processed_same.
Qed.

Lemma receive_single_full prev event :
  length prev = 500%nat -> length (receive prev (Single event)) = 500%nat.
Proof.
  intros Hlen. cbn [receive]. rewrite slice_last_length, length_app, Hlen. reflexivity.
Qed.

(** The invariant of the counters. *)
Lemma process_event_inv now c changed event :
  (c_totalRequests c = c_successfulRequests c + c_failedRequests c
   /\ 0 <= c_mempoolErrors c <= c_failedRequests c
   /\ latencySum c = Metrics.sum (c_latencies c)
   /\ Z.of_nat (length (c_latencies c)) <= MAX_LATENCY_SAMPLES) ->
  let c' := (process_event now (c, changed) event).1 in
  c_totalRequests c' = c_successfulRequests c' + c_failedRequests c'
  /\ 0 <= c_mempoolErrors c' <= c_failedRequests c'
  /\ latencySum c' = Metrics.sum (c_latencies c')
  /\ Z.of_nat (length (c_latencies c')) <= MAX_LATENCY_SAMPLES.
Proof.
  intros (Htot & Hmem & Hsum & Hlen). cbv zeta. unfold process_event.
  destruct (String.eqb (agentId event) EmptyString); [cbn [fst]; tauto|].
  destruct (type event); cbn [fst c_totalRequests c_successfulRequests c_failedRequests
    c_mempoolErrors latencySum c_latencies]; try (repeat split; lia || assumption).
  - destruct (isMempoolError (error event)); repeat split; lia || assumption.
  - destruct (truthy_latency event) as [l|].
    + unfold push_latency, MAX_LATENCY_SAMPLES in *.
      rewrite length_app. cbn [length].
      destruct (Z.ltb_spec 2000 (Z.of_nat (length (c_latencies c) + 1))) as [Hfull|Hroom].
      * destruct (c_latencies c) as [|removed rest] eqn:Hl.
        { cbn in Hfull. lia. }
        cbn [app fst snd c_totalRequests c_successfulRequests c_failedRequests
             c_mempoolErrors latencySum c_latencies].
        repeat split; try lia.
        -- rewrite Hsum, sum_cons. unfold Metrics.sum.
           rewrite foldl_app. cbn [foldl]. lia.
        -- rewrite length_app. cbn [length] in *. lia.
      * cbn [fst snd c_totalRequests c_successfulRequests c_failedRequests
             c_mempoolErrors latencySum c_latencies].
        repeat split; try lia.
        -- rewrite Hsum. unfold Metrics.sum. rewrite foldl_app. reflexivity.
        -- rewrite length_app. cbn [length]. lia.
    + cbn [fst snd c_totalRequests c_successfulRequests c_failedRequests
           c_mempoolErrors latencySum c_latencies].
      repeat split; lia || assumption.
  - destruct (isMempoolError (error event)); repeat split; lia || assumption.
Qed.

Lemma process_from_inv clock events : forall i c changed,
  (c_totalRequests c = c_successfulRequests c + c_failedRequests c
   /\ 0 <= c_mempoolErrors c <= c_failedRequests c
   /\ latencySum c = Metrics.sum (c_latencies c)
   /\ Z.of_nat (length (c_latencies c)) <= MAX_LATENCY_SAMPLES) ->
  let c' := (process_from clock i events (c, changed)).1 in
  c_totalRequests c' = c_successfulRequests c' + c_failedRequests c'
  /\ 0 <= c_mempoolErrors c' <= c_failedRequests c'
  /\ latencySum c' = Metrics.sum (c_latencies c')
  /\ Z.of_nat (length (c_latencies c')) <= MAX_LATENCY_SAMPLES.
Proof.
  induction events as [|event events IH]; intros i c changed Hinv; [exact Hinv|].
  cbn [process_from].
  destruct (process_event (clock i) (c, changed) event) as [c1 changed1] eqn:Hstep.
  apply IH.
  pose proof (process_event_inv (clock i) c changed event Hinv) as H1.
  cbv zeta in H1. now rewrite Hstep in H1.
Qed.

Lemma reachable_inv c :
  reachable c ->
  c_totalRequests c = c_successfulRequests c + c_failedRequests c
  /\ 0 <= c_mempoolErrors c <= c_failedRequests c
  /\ latencySum c = Metrics.sum (c_latencies c)
  /\ Z.of_nat (length (c_latencies c)) <= MAX_LATENCY_SAMPLES.
Proof.
  induction 1 as [|clock tps c events _ IH|now c _ IH].
  - cbn. unfold MAX_LATENCY_SAMPLES. repeat split; lia.
  - unfold effect. cbv zeta.
    destruct (length events <? processedCount c)%nat; [exact IH|].
    pose proof (process_from_inv clock (drop (processedCount c) events)
                  (processedCount c) c false IH) as H1.
    cbv zeta in H1.
    destruct (process_from clock (processedCount c) (drop (processedCount c) events)
                (c, false)) as [c1 changed].
    exact H1.
  - exact IH.
Qed.

Lemma sum_alter_succ (b : list Z) : forall i,
  (i < length b)%nat -> Metrics.sum (alter (fun n => n + 1) i b) = Metrics.sum b + 1.
Proof.
  induction b as [|x b IH]; intros [|i] Hi; cbn [length] in Hi; try lia.
  - cbn [alter list_alter]. rewrite !sum_cons. lia.
  - cbn [alter list_alter]. change (list_alter ?f i b) with (alter f i b).
    rewrite !sum_cons, IH by lia. lia.
Qed.

Lemma bucket_lt lat : (bucket lat < 5)%nat.
Proof. unfold bucket. repeat case_match; lia. Qed.

Lemma histogram_total lats : forall b,
  length b = 5%nat ->
  let h := foldl (fun buckets lat => alter (fun n => n + 1) (bucket lat) buckets) b lats in
  length h = 5%nat /\ Metrics.sum h = Metrics.sum b + Z.of_nat (length lats).
Proof.
  induction lats as [|lat lats IH]; intros b Hb; cbn [foldl length]; [split; [exact Hb|lia]|].
  destruct (IH (alter (fun n => n + 1) (bucket lat) b)) as [H1 H2].
  { now rewrite length_alter. }
  split; [exact H1|]. rewrite H2, sum_alter_succ by (rewrite Hb; apply bucket_lt). lia.
Qed.

(** X24.  Once the buffer of [useEventStream] holds 500 events and
    [useMetrics] has processed them, single events that arrive replace
    the oldest in the buffer but change no counter: the buffer keeps
    its length, so the loop over the new events has nothing to visit. *)
Theorem full_buffer_freezes_counters clock tps messages : forall events c,
  length events = 500%nat -> processedCount c = 500%nat ->
  Forall (fun m => exists event, m = Single event) messages ->
  (on_messages clock tps (events, c) messages).2 = c
  /\ length (on_messages clock tps (events, c) messages).1 = 500%nat.
Proof.
  induction messages as [|m messages IH]; intros events c Hlen Hc Hall.
  - split; [reflexivity|exact Hlen].
  - apply Forall_cons in Hall as [[event ->] Hall].
    pose proof (receive_single_full events event Hlen) as Hlen'.
    assert (Hstep : on_message clock tps (events, c) (Single event)
                    = (receive events (Single event), c)).
    { unfold on_message. cbn [fst snd].
      rewrite effect_same_length by congruence. reflexivity. }
    unfold on_messages in *. cbn [foldl]. rewrite Hstep.
    now apply IH.
Qed.

Lemma full_buffer_freezes_counters_witness :
  let st := on_messages (fun _ => 0) 0 ([], no_counters) (Single <$> served_run 500) in
  c_totalRequests st.2 = 500
  /\ c_totalRequests
       (on_messages (fun _ => 0) 0 st (Single <$> served_run 40)).2 = 500.
Proof.
  intros st.
  assert (Hst : length st.1 = 500%nat /\ processedCount st.2 = 500%nat
                /\ c_totalRequests st.2 = 500) by (vm_compute; auto).
  destruct Hst as (H1 & H2 & H3). split; [exact H3|].
  destruct (full_buffer_freezes_counters (fun _ => 0) 0 (Single <$> served_run 40)
              st.1 st.2 H1 H2) as [Hc _].
  - apply Forall_fmap, Forall_forall. intros e _. now exists e.
  - destruct st as [events c]. cbn [fst snd] in *. rewrite Hc. exact H3.
Defined.

(** X25.  The counters of the dashboard always add up: total =
    successful + failed, the mempool errors are among the failed, the
    running sum is the sum of the held latencies and at most 2000 are
    held; the histogram that is published has five buckets which together
    count every held latency. *)
Theorem dashboard_counters_consistent clock tps c events :
  reachable c ->
  let c' := (effect clock tps c events).1 in
  c_totalRequests c' = c_successfulRequests c' + c_failedRequests c'
  /\ 0 <= c_mempoolErrors c' <= c_failedRequests c'
  /\ latencySum c' = Metrics.sum (c_latencies c')
  /\ Z.of_nat (length (c_latencies c')) <= MAX_LATENCY_SAMPLES
  /\ forall m, (effect clock tps c events).2 = Some m ->
       m_totalRequests m = m_successfulRequests m + m_failedRequests m
       /\ length (latencyHistogram m) = 5%nat
       /\ Metrics.sum (latencyHistogram m) = Z.of_nat (length (c_latencies c')).
Proof.
  intros Hr. cbv zeta.
  pose proof (reachable_inv _ (d_effect clock tps c events Hr)) as (H1 & H2 & H3 & H4).
  repeat (split; [assumption|]).
  intros m Hm. unfold effect in *. cbv zeta in *.
  destruct (length events <? processedCount c)%nat; [discriminate Hm|].
  destruct (process_from clock (processedCount c) (drop (processedCount c) events)
              (c, false)) as [c1 changed].
  cbn [fst snd] in *. destruct changed; [|discriminate Hm].
  injection Hm as <-.
  cbn [metrics_of m_totalRequests m_successfulRequests m_failedRequests latencyHistogram].
  split; [exact H1|].
  destruct (histogram_total (c_latencies (with_processed c1 (length events)))
              [0; 0; 0; 0; 0] eq_refl) as [Hh1 Hh2].
  split; [exact Hh1|]. unfold histogram. rewrite Hh2. reflexivity.
Qed.

Lemma dashboard_counters_consistent_witness :
  let r := effect (fun _ => 5) 0 no_counters [served_at 1; served_at 2] in
  exists m, r.2 = Some m
            /\ length (latencyHistogram m) = 5%nat
            /\ Metrics.sum (latencyHistogram m) = Z.of_nat (length (c_latencies r.1)).
Proof.
  intros r.
  destruct (dashboard_counters_consistent (fun _ => 5) 0 no_counters
              [served_at 1; served_at 2] d_init) as (_ & _ & _ & _ & Hm).
  assert (E : exists m, r.2 = Some m) by (vm_compute; eauto).
  destruct E as [m E]. exists m. split; [exact E|].
  exact (proj2 (Hm m E)).
Defined.

End DashboardCounters.

(** ** The dashboard that recomputes from the buffer *)
Section DashboardRecomputed.
Import JS Events Dashboard DashboardMemo.

Lemma tally_event_counts t event :
  let t' := tally_event t event in
  t_totalRequests t' - t_successfulRequests t'
    = t_totalRequests t - t_successfulRequests t
  /\ t_successfulRequests t'
     = t_successfulRequests t + (if counted request_served event then 1 else 0)
  /\ t_failedRequests t'
     = t_failedRequests t
       + (if counted payment_failed event || counted error_event event then 1 else 0).
Proof.
  cbv zeta. unfold tally_event, counted.
  destruct (String.eqb (agentId event) EmptyString); cbn [negb andb orb]; [lia|].
  destruct (type event); cbn; repeat case_bool_decide; try congruence; cbn; lia.
Qed.

Lemma tally_counts events : forall t,
  let t' := foldl tally_event t events in
  t_totalRequests t' - t_successfulRequests t'
    = t_totalRequests t - t_successfulRequests t
  /\ t_successfulRequests t'
     = t_successfulRequests t
       + Z.of_nat (length (filter (fun e => counted request_served e = true) events))
  /\ t_failedRequests t'
     = t_failedRequests t
       + Z.of_nat (length (filter (fun e => counted payment_failed e
                                           || counted error_event e = true) events)).
Proof.
  induction events as [|event events IH]; intros t; cbn [foldl].
  - cbn. lia.
  - cbv zeta in IH. destruct (IH (tally_event t event)) as (H1 & H2 & H3).
    destruct (tally_event_counts t event) as (E1 & E2 & E3).
    rewrite H1, H2, H3, E1, E2, E3, !filter_cons.
    destruct (counted request_served event);
      destruct (counted payment_failed event || counted error_event event);
      repeat case_decide; try congruence; cbn [length]; lia.
Qed.

(** X26.  In the revision that recomputes the metrics from the buffer,
    a failed payment or an error adds to [failedRequests] only:
    [totalRequests] equals [successfulRequests], the number of buffered
    [request_served] events that name an agent, so the published success
    rate is 100 when the buffer holds such an event and 0 when it holds
    none. *)
Theorem recomputed_total_counts_served_only tps events :
  let m := useMetrics tps events in
  m_totalRequests m = m_successfulRequests m
  /\ m_successfulRequests m
     = Z.of_nat (length (filter (fun e => counted request_served e = true) events))
  /\ m_failedRequests m
     = Z.of_nat (length (filter (fun e => counted payment_failed e
                                         || counted error_event e = true) events))
  /\ (filter (fun e => counted request_served e = true) events = [] ->
      Qeq (successRate m) 0)
  /\ (filter (fun e => counted request_served e = true) events <> [] ->
      Qeq (successRate m) (inject_Z 100)).
Proof.
  cbv zeta.
  destruct (tally_counts events no_tally) as (H1 & H2 & H3).
  cbv zeta in H1, H2, H3.
  cbn [no_tally t_totalRequests t_successfulRequests t_failedRequests] in H1, H2, H3.
  unfold useMetrics. cbv zeta.
  cbn [m_totalRequests m_successfulRequests m_failedRequests successRate].
  assert (Heq : t_totalRequests (foldl tally_event no_tally events)
                = t_successfulRequests (foldl tally_event no_tally events)) by lia.
  split; [exact Heq|]. split; [lia|]. split; [lia|].
  rewrite Heq.
  destruct (Z.ltb_spec 0 (t_successfulRequests (foldl tally_event no_tally events)))
    as [Hpos|Hzero].
  2: { split; [reflexivity|]. intros Hne. exfalso.
       destruct (filter (fun e => counted request_served e = true) events);
         [congruence | cbn [length] in H2; lia]. }
  split.
  { intros Hnil. rewrite Hnil in H2. cbn [length] in H2. lia. }
  intros _.
  - rewrite (Math_round_Z 1000).
    + reflexivity.
    + assert (Hnz : ~ Qeq (inject_Z (t_successfulRequests
                                        (foldl tally_event no_tally events))) 0).
      { intros Hq. unfold Qeq in Hq. cbn [inject_Z Qnum Qden] in Hq. lia. }
      revert Hnz. generalize (inject_Z (t_successfulRequests
                                          (foldl tally_event no_tally events))).
      intros q Hnz. change (inject_Z 1000) with (1000 # 1)%Q. field. exact Hnz.
Qed.

Lemma recomputed_total_counts_served_only_witness :
  let failed := paymentFailed_at 1 in
  Qeq (successRate (useMetrics 0 [failed; failed])) 0
  /\ m_failedRequests (useMetrics 0 [failed; failed]) = 2
  /\ Qeq (successRate (useMetrics 0 [failed; served_at 2; failed])) (inject_Z 100)
  /\ m_totalRequests (useMetrics 0 [failed; served_at 2; failed]) = 1
  /\ m_failedRequests (useMetrics 0 [failed; served_at 2; failed]) = 2.
Proof.
  intros failed.
  destruct (recomputed_total_counts_served_only 0 [failed; failed])
    as (_ & _ & F1 & Z1 & _).
  destruct (recomputed_total_counts_served_only 0 [failed; served_at 2; failed])
    as (T2 & S2 & F2 & _ & P2).
  split; [apply Z1; vm_compute; reflexivity|].
  split; [rewrite F1; vm_compute; reflexivity|].
  split; [apply P2; vm_compute; discriminate|].
  split; [rewrite T2, S2; vm_compute; reflexivity|].
  rewrite F2. vm_compute. reflexivity.
Defined.

End DashboardRecomputed.
